(** * CreditAnalyzerV1: the score calculators of [app.py]

    A shallow embedding of the data-processing half of [app.py]:
    [is_problematic], [safe_get], [calculate_z_score],
    [calculate_ohlson_score] and [calculate_merton_default], and the
    properties the specification states about them.

    Numbers are IEEE 754 binary64 values ([PrimFloat.float]), the type of
    Python's [float] and of numpy's [float64]: NaN, the infinities and the
    signed zeros are values of the model, as they are of the program.  A
    Python [int] is carried by the binary64 value it converts to (the
    integers of a balance sheet are far below 2^53).

    The program calls into numpy, scipy, pandas and [math] for the
    logarithm, the exponential, the normal distribution function and the
    sample standard deviation.  Those functions are parameters of the model
    (record [numlib]); every general theorem holds for whatever functions
    are plugged in.  [reflib] is a binary64 implementation of them, used
    to evaluate the calculators on concrete companies. *)

From Stdlib Require Import ZArith QArith Uint63.
From Stdlib Require Import Floats.PrimFloat Floats.FloatOps Floats.SpecFloat Floats.FloatAxioms.
From stdpp Require Import gmap strings list pretty.

Set Warnings "-inexact-float".
Set Default Proof Using "Type".

(** ** Exceptions

    A Python computation either returns or raises; the exception carries
    the text [str(e)] that the handlers paste into their notes. *)

Inductive result (A : Type) : Type :=
| Ok (a : A)
| Raise (msg : string).
Arguments Ok {A} a.
Arguments Raise {A} msg.

#[global] Instance result_ret : MRet result := λ A a, Ok a.
#[global] Instance result_bind : MBind result := λ A B k c,
  match c with
  | Ok a => k a
  | Raise msg => Raise msg
  end.

Definition is_Raise {A : Type} (c : result A) : bool :=
  match c with Ok _ => false | Raise _ => true end.

(** ** binary64 helpers *)

Module F.

Open Scope float_scope.

(** [np.isnan], [np.isinf], and [<] / [==] as Python evaluates them on
    floats (every comparison with NaN is false). *)
Definition isnan (x : float) : bool := is_nan x.
Definition isinf (x : float) : bool := is_infinity x.
Definition isfinite (x : float) : bool := is_finite x.

(** The float of a (small) integer. *)
Definition of_Z (z : Z) : float :=
  match z with
  | Z0 => 0
  | Zpos p => of_uint63 (Uint63.of_Z (Zpos p))
  | Zneg p => - of_uint63 (Uint63.of_Z (Zpos p))
  end.

(** The integer nearest to a float of magnitude below 2^51 (ties to even),
    by the usual add-and-subtract of 1.5 * 2^52. *)
Definition rint (x : float) : float :=
  (x + 6755399441055744) - 6755399441055744.

(** The integer value of an integral float. *)
Definition to_Z (x : float) : Z :=
  match Prim2SF x with
  | S754_finite s m e =>
      let v := if (0 <=? e)%Z then (Zpos m * 2 ^ e)%Z else (Zpos m / 2 ^ (- e))%Z in
      if s then (- v)%Z else v
  | _ => 0%Z
  end.

End F.

(** ** A reference implementation of the numeric libraries

    [ref_log], [ref_exp], [ref_erfc] and [ref_cdf] compute the natural
    logarithm, the exponential, the complementary error function and the
    standard normal distribution function in binary64 arithmetic.  They
    return what the libraries return on the special values (NaN in, NaN
    out; [log] of a negative number is NaN and of zero is -inf, both with a
    warning and no exception; the distribution function is exactly 0 far
    in the lower tail and exactly 1 in the upper one) and approximate them
    elsewhere. *)

Module Ref.

Open Scope float_scope.

Definition ln2 : float := 0.6931471805599453.
Definition ln2_hi : float := 0.693147180369123816490.
Definition ln2_lo : float := 1.90821492927058770002e-10.
Definition sqrt_half : float := 0.7071067811865476.
Definition inv_sqrt_pi : float := 0.5641895835477563.

(** [sum_{k < n} u^k / (2k+1)], evaluated from the last term (Horner). *)
Fixpoint atanh_poly (n : nat) (k : Z) (u : float) : float :=
  match n with
  | O => 0
  | S n' => 1 / F.of_Z (2 * k + 1) + u * atanh_poly n' (k + 1) u
  end.

Definition ref_log (x : float) : float :=
  if is_nan x then nan
  else if x <? 0 then nan
  else if x =? 0 then neg_infinity
  else if x =? infinity then infinity
  else
    let '(m, e) := Z.frexp x in
    let '(m, e) := if m <? sqrt_half then (m * 2, (e - 1)%Z) else (m, e) in
    let t := (m - 1) / (m + 1) in
    F.of_Z e * ln2 + 2 * t * atanh_poly 14 0 (t * t).

(** [sum_{k <= n} r^k / k!], Horner from the last term. *)
Fixpoint exp_poly (n : nat) (k : Z) (r : float) : float :=
  match n with
  | O => 1
  | S n' => 1 + r / F.of_Z k * exp_poly n' (k + 1) r
  end.

Definition ref_exp (x : float) : float :=
  if is_nan x then nan
  else if 709.782712893384 <? x then infinity
  else if x <? -745.2 then 0
  else
    let k := F.rint (x / ln2) in
    let r := (x - k * ln2_hi) - k * ln2_lo in
    Z.ldexp (exp_poly 18 1 r) (F.to_Z k).

(** erf z = 2/sqrt(pi) * exp(-z^2) * sum_n 2^n z^(2n+1) / (2n+1)!!,
    a series of positive terms; used for 0 <= z < 3. *)
Fixpoint erf_terms (n : nat) (k : Z) (z2 : float) : float :=
  match n with
  | O => 1
  | S n' => 1 + 2 * z2 / F.of_Z (2 * k + 1) * erf_terms n' (k + 1) z2
  end.

Definition erf_small (z : float) : float :=
  2 * inv_sqrt_pi * ref_exp (- (z * z)) * z * erf_terms 90 1 (z * z).

(** erfc z = exp(-z^2)/sqrt(pi) * 1/(z + (1/2)/(z + 1/(z + (3/2)/(z + ...)))),
    the continued fraction cut at depth [n]; used for z >= 3. *)
Fixpoint erfc_cf (n : nat) (k : Z) (z : float) : float :=
  match n with
  | O => z
  | S n' => z + (F.of_Z k / 2) / erfc_cf n' (k + 1) z
  end.

Definition ref_erfc (z : float) : float :=
  if z <? 3 then 1 - erf_small z
  else ref_exp (- (z * z)) * inv_sqrt_pi / erfc_cf 70 1 z.

(** [scipy.stats.norm.cdf]: 0.5 * erfc(|x| / sqrt 2), reflected for x > 0. *)
Definition ref_cdf (x : float) : float :=
  if is_nan x then nan
  else
    let y := 0.5 * ref_erfc (abs x * sqrt_half) in
    if 0 <? x then 1 - y else y.

(** [pandas.Series.std()]: the sample standard deviation (ddof = 1) of the
    entries that are not NaN; NaN when fewer than two remain. *)
Definition fsum (xs : list float) : float := foldl add 0 xs.

Definition ref_std (xs : list float) : float :=
  let ys := filter (λ x, is_nan x = false) xs in
  let n := Z.of_nat (length ys) in
  if (n <? 2)%Z then nan
  else
    let avg := fsum ys / F.of_Z n in
    sqrt (fsum (map (λ y, (avg - y) * (avg - y)) ys) / F.of_Z (n - 1)).

End Ref.

(** ** The numeric libraries as a parameter *)

Record numlib : Type := {
  np_log : float → float;            (* numpy.log on a float64: never raises *)
  norm_cdf : float → float;          (* scipy.stats.norm.cdf *)
  series_std : list float → float;   (* pandas.Series.std() *)
  math_log : float → result float;   (* math.log: ValueError outside its domain *)
  math_exp : float → result float;   (* math.exp: OverflowError on overflow *)
}.

Definition ref_math_log (x : float) : result float :=
  if PrimFloat.leb x 0 then Raise "math domain error" else Ok (Ref.ref_log x).

Definition ref_math_exp (x : float) : result float :=
  if PrimFloat.ltb 709.782712893384 x && negb (PrimFloat.eqb x infinity)
  then Raise "math range error" else Ok (Ref.ref_exp x).

Definition reflib : numlib := {|
  np_log := Ref.ref_log;
  norm_cdf := Ref.ref_cdf;
  series_std := Ref.ref_std;
  math_log := ref_math_log;
  math_exp := ref_math_exp;
|}.

(** ** Python values

    The calculators handle three kinds of value: [None], a Python number
    ([int] or [float]: the sentinel [0] of [safe_get], the entries of
    [company.info], literals) and a numpy [float64] (a cell of a pandas
    frame, the result of [np.log], [np.sqrt], [norm.cdf] or [.std()]).
    The kinds differ in what raises: arithmetic on [None] is a [TypeError],
    a Python number divided by a Python zero is a [ZeroDivisionError], and
    numpy arithmetic never raises (it returns inf or NaN and warns).  An
    operation with one numpy operand is a numpy operation. *)

Inductive value : Type :=
| VNone
| VPy (x : float)
| VNp (x : float).

Module V.

Open Scope float_scope.

Definition payload (v : value) : float :=
  match v with
  | VNone => nan
  | VPy x | VNp x => x
  end.

Definition is_np (v : value) : bool :=
  match v with VNp _ => true | _ => false end.

Definition arith (name : string) (op : float → float → float) (a b : value) : result value :=
  match a, b with
  | VNone, _ | _, VNone =>
      Raise ("unsupported operand type(s) for " +:+ name +:+ ": 'NoneType'")
  | VPy x, VPy y => Ok (VPy (op x y))
  | VPy x, VNp y | VNp x, VPy y | VNp x, VNp y => Ok (VNp (op x y))
  end.

Definition add := arith "+" PrimFloat.add.
Definition sub := arith "-" PrimFloat.sub.
Definition mul := arith "*" PrimFloat.mul.

Definition div (a b : value) : result value :=
  match a, b with
  | VPy x, VPy y => if y =? 0 then Raise "division by zero" else Ok (VPy (x / y))
  | _, _ => arith "/" PrimFloat.div a b
  end.

Definition lt (a b : value) : result bool :=
  match a, b with
  | VNone, _ | _, VNone => Raise "'<' not supported between instances of 'NoneType' and 'int'"
  | _, _ => Ok (payload a <? payload b)
  end.

Definition gt (a b : value) : result bool := lt b a.

Definition vabs (a : value) : result value :=
  match a with
  | VNone => Raise "bad operand type for abs(): 'NoneType'"
  | VPy x => Ok (VPy (abs x))
  | VNp x => Ok (VNp (abs x))
  end.

Definition neg (a : value) : result value :=
  match a with
  | VNone => Raise "bad operand type for unary -: 'NoneType'"
  | VPy x => Ok (VPy (- x))
  | VNp x => Ok (VNp (- x))
  end.

(** [max(a, b)] of two arguments: [b] when [b > a], else [a]. *)
Definition max2 (a b : value) : result value :=
  c ← gt b a; Ok (if c : bool then b else a).

End V.

(** ** Pandas frames

    A financial statement is a frame whose index holds the metric names and
    whose columns are the reporting periods, most recent first.  Every row
    of a frame has [df_ncols] cells (a missing one is NaN). *)

Record DataFrame : Type := {
  df_ncols : nat;
  df_rows : gmap string (list float);
}.

(** [key in df.index] *)
Definition in_index (df : DataFrame) (key : string) : bool :=
  bool_decide (is_Some (df_rows df !! key)).

(** [df.loc[key].iloc[index]]: [KeyError] for an unknown label,
    [IndexError] past the last column. *)
Definition loc_iloc (df : DataFrame) (key : string) (index : nat) : result float :=
  match df_rows df !! key with
  | None => Raise ("'" +:+ key +:+ "'")
  | Some row =>
      if bool_decide (index < df_ncols df)
      then Ok (default nan (row !! index))
      else Raise "single positional indexer is out-of-bounds"
  end.

(** A price history is a frame indexed by trading day with one column per
    price kind; [h_len] is [len(stock_data)]. *)
Record History : Type := {
  h_len : nat;
  h_cols : gmap string (list float);
}.

(** [stock_data[name]]: [KeyError] when the frame has no such column. *)
Definition column (h : History) (name : string) : result (list float) :=
  match h_cols h !! name with
  | None => Raise ("'" +:+ name +:+ "'")
  | Some xs => Ok (take (h_len h) (xs ++ replicate (h_len h) nan))
  end.

(** What [yf.Ticker] hands out; every access goes to the network and may
    raise. *)
Record Company : Type := {
  history : string → result History;
  balance_sheet : result DataFrame;
  income_stmt : result DataFrame;
  info : result (gmap string value);
}.

(** [info.get(key, 0)] *)
Definition info_get (i : gmap string value) (key : string) : value :=
  default (VPy 0) (i !! key).

(** ** [is_problematic] and [safe_get] *)

(** [pd.isna(value) or np.isinf(value) or value == 0 or abs(float(value)) < 1e-6];
    [None] is NA. *)
Definition is_problematic (v : value) : bool :=
  match v with
  | VNone => true
  | VPy x | VNp x =>
      F.isnan x || F.isinf x || PrimFloat.eqb x 0 || PrimFloat.ltb (abs x) 1e-6
  end.

(** The [for] loop of [safe_get], inside its [try]. *)
Fixpoint safe_get_scan (df : DataFrame) (keys : list string) (index : nat)
  : result (value * option string) :=
  match keys with
  | [] => Ok (VPy 0, None)
  | key :: keys' =>
      if in_index df key then
        value ← loc_iloc df key index;
        if negb (is_problematic (VNp value)) then Ok (VNp value, Some key)
        else safe_get_scan df keys' index
      else safe_get_scan df keys' index
  end.

Definition safe_get (df : DataFrame) (keys : list string) (index : nat)
  : value * option string :=
  match safe_get_scan df keys index with
  | Ok r => r
  | Raise _ => (VPy 0, None)
  end.

(** ** Calculator bodies: notes, early return, exceptions

    Each calculator owns two lists, [problematic_values] and
    [substituted_values], appends to them as it goes, may [return] from
    the middle of its body, and runs inside [try] blocks.  What a handler
    sees is the lists as the failing statement left them.  A body is
    therefore a function from the notes so far to an outcome (a value to
    go on with, a [return], or a raised exception) and the notes after. *)

Record notes : Type := {
  problematic_values : list string;
  substituted_values : list string;
}.

Definition no_notes : notes :=
  {| problematic_values := []; substituted_values := [] |}.

Inductive outcome (R A : Type) : Type :=
| Normal (a : A)
| Return (r : R)
| Raised (msg : string).
Arguments Normal {R A} a.
Arguments Return {R A} r.
Arguments Raised {R A} msg.

Definition M (R A : Type) : Type := notes → outcome R A * notes.

#[global] Instance M_ret {R} : MRet (M R) := λ A a n, (Normal a, n).
#[global] Instance M_bind {R} : MBind (M R) := λ A B k c n,
  match c n with
  | (Normal a, n') => k a n'
  | (Return r, n') => (Return r, n')
  | (Raised msg, n') => (Raised msg, n')
  end.

Section Body.
Context {R : Type}.

Definition ret {A} (a : A) : M R A := λ n, (Normal a, n).

(** A pure computation that may raise. *)
Definition lift {A} (c : result A) : M R A := λ n,
  match c with
  | Ok a => (Normal a, n)
  | Raise msg => (Raised msg, n)
  end.

(** [return r] *)
Definition return_ {A} (r : R) : M R A := λ n, (Return r, n).

(** [problematic_values.append(s)] and [substituted_values.append(s)] *)
Definition problem (s : string) : M R unit := λ n,
  (Normal (), {| problematic_values := problematic_values n ++ [s];
                 substituted_values := substituted_values n |}).

Definition substituted (s : string) : M R unit := λ n,
  (Normal (), {| problematic_values := problematic_values n;
                 substituted_values := substituted_values n ++ [s] |}).

(** [try: body except Exception as e: handler(str(e))] *)
Definition try_except {A} (body : M R A) (handler : string → M R A) : M R A := λ n,
  match body n with
  | (Raised msg, n') => handler msg n'
  | other => other
  end.

(** A whole function body, started on empty lists.  The function returns
    its score together with the two lists; an exception that no handler
    caught escapes to the caller. *)
Definition run (body : M R R) : result (R * list string * list string) :=
  match body no_notes with
  | (Normal r, n) | (Return r, n) =>
      Ok (r, problematic_values n, substituted_values n)
  | (Raised msg, _) => Raise msg
  end.
End Body.

(** Arithmetic on operands that are themselves computed. *)
Definition lift2 (op : value → value → result value) (a b : result value) : result value :=
  x ← a; y ← b; op x y.

Declare Scope py_scope.
Delimit Scope py_scope with py.
Notation "a + b" := (lift2 V.add a b) : py_scope.
Notation "a - b" := (lift2 V.sub a b) : py_scope.
Notation "a * b" := (lift2 V.mul a b) : py_scope.
Notation "a / b" := (lift2 V.div a b) : py_scope.

(** A literal, and a variable holding a value. *)
Definition lit (x : float) : result value := Ok (VPy x).
Definition var (v : value) : result value := Ok v.

(** ** [calculate_z_score] *)

Definition calculate_z_score (yf_Ticker : string → result Company) (ticker : string)
  : result (option value * list string * list string) :=
  run (
    try_except (
      company ← lift (yf_Ticker ticker);
      balance_sheet ← lift (balance_sheet company);
      income_stmt ← lift (income_stmt company);
      info ← lift (info company);

      (* Total Assets (A) *)
      let total_assets := (safe_get balance_sheet ["Total Assets"; "TotalAssets"] 0).1 in
      total_assets ←
        (if is_problematic total_assets then
           let current_assets :=
             (safe_get balance_sheet ["Current Assets"; "TotalCurrentAssets"] 0).1 in
           let non_current_assets :=
             (safe_get balance_sheet ["Non Current Assets"; "TotalNonCurrentAssets"] 0).1 in
           total_assets ← lift (V.add current_assets non_current_assets);
           if negb (is_problematic total_assets) then
             substituted "Total Assets (calculated from Current + Non-Current Assets)";;
             ret total_assets
           else
             problem "Total Assets";;
             return_ None
         else ret total_assets);

      (* Working Capital *)
      let current_assets :=
        (safe_get balance_sheet ["Current Assets"; "CurrentAssets"; "TotalCurrentAssets"] 0).1 in
      let current_liabilities :=
        (safe_get balance_sheet
           ["Current Liabilities"; "CurrentLiabilities"; "TotalCurrentLiabilities"] 0).1 in
      working_capital ← lift (V.sub current_assets current_liabilities);

      (* Retained Earnings *)
      let retained_earnings :=
        (safe_get balance_sheet ["Retained Earnings"; "RetainedEarnings"] 0).1 in
      retained_earnings ←
        (if is_problematic retained_earnings then
           let total_equity := (safe_get balance_sheet ["Total Equity"; "TotalEquity"] 0).1 in
           let capital_stock := (safe_get balance_sheet ["Capital Stock"; "CommonStock"] 0).1 in
           retained_earnings ← lift (V.sub total_equity capital_stock);
           (if negb (is_problematic retained_earnings) then
              substituted "Retained Earnings (calculated from Total Equity - Capital Stock)"
            else problem "Retained Earnings");;
           ret retained_earnings
         else ret retained_earnings);

      (* EBIT *)
      let ebit := (safe_get income_stmt ["EBIT"; "OperatingIncome"] 0).1 in
      ebit ←
        (if is_problematic ebit then
           let ebitda := (safe_get income_stmt ["EBITDA"] 0).1 in
           let depreciation :=
             (safe_get income_stmt ["Depreciation"; "DepreciationAndAmortization"] 0).1 in
           ebit ← lift (V.sub ebitda depreciation);
           (if negb (is_problematic ebit) then
              substituted "EBIT (calculated from EBITDA - Depreciation)"
            else problem "EBIT");;
           ret ebit
         else ret ebit);

      (* Market Value of Equity *)
      let market_value := info_get info "marketCap" in
      market_value ←
        (if is_problematic market_value then
           let shares := info_get info "sharesOutstanding" in
           let price := info_get info "currentPrice" in
           market_value ← lift (V.mul shares price);
           (if negb (is_problematic market_value) then
              substituted "Market Value (calculated from Shares * Price)"
            else problem "Market Value");;
           ret market_value
         else ret market_value);

      (* Total Liabilities *)
      let total_liabilities :=
        (safe_get balance_sheet
           ["Total Liabilities Net Minority Interest"; "TotalLiabilities"; "Total Liabilities"]
           0).1 in

      (* Sales *)
      let sales := (safe_get income_stmt ["Total Revenue"; "TotalRevenue"; "Revenue"] 0).1 in
      (if is_problematic sales then problem "Sales/Revenue" else ret ());;

      (* Calculate ratios if we have the minimum required data *)
      if negb (is_problematic total_assets) then
        A ← lift (V.div working_capital total_assets);
        B ← lift (V.div retained_earnings total_assets);
        C ← lift (V.div ebit total_assets);
        D ← lift (if negb (is_problematic total_liabilities)
                  then V.div market_value total_liabilities else Ok (VPy 0));
        E ← lift (V.div sales total_assets);
        z_score ← lift (lit 1.2 * var A + lit 1.4 * var B + lit 3.3 * var C
                        + lit 0.6 * var D + lit 1.0 * var E)%py;
        return_ (Some z_score)
      else ret ())
    (λ e, problem ("Calculation Error: " +:+ e));;
    return_ None).

(** ** [calculate_ohlson_score] *)

Section Ohlson.
Variable lib : numlib.

(** [math.log(x)] and [math.exp(x)]: the argument is converted to a C
    double, the result is a Python float. *)
Definition py_math_log (x : value) : result value :=
  match x with
  | VNone => Raise "must be real number, not NoneType"
  | _ => y ← math_log lib (V.payload x); Ok (VPy y)
  end.

Definition py_math_exp (x : value) : result value :=
  match x with
  | VNone => Raise "must be real number, not NoneType"
  | _ => y ← math_exp lib (V.payload x); Ok (VPy y)
  end.

(** [1 if c else 0] *)
Definition indicator (c : bool) : value := if c then VPy 1 else VPy 0.

(** The eight terms of the O-Score. *)
Record ohlson_terms : Type := {
  size : value; tlta : value; wcta : value; clca : value;
  oeneg : value; nita : value; intwo : value; chin : value;
}.

Definition ohlson_result : Type := option value * option value.

(** The first part of the body: the statements and the ratios. *)
Definition ohlson_ratios (company : Company) : M ohlson_result ohlson_terms :=
  balance_sheet ← lift (balance_sheet company);
  income_stmt ← lift (income_stmt company);
  info ← lift (info company);

  (* Get total assets and apply log transform *)
  let total_assets := (safe_get balance_sheet ["Total Assets"; "TotalAssets"] 0).1 in
  total_assets ←
    (if is_problematic total_assets then
       total_assets ← lift
         (lit 0
          + var (safe_get balance_sheet ["Current Assets"; "TotalCurrentAssets"] 0).1
          + var (safe_get balance_sheet
                   ["Non Current Assets"; "TotalNonCurrentAssets"] 0).1)%py;
       if negb (is_problematic total_assets) then
         substituted "Total Assets (sum of Current and Non-Current)";;
         ret total_assets
       else
         problem "Total Assets";;
         return_ (None, None)
     else ret total_assets);

  size ← lift (m ← V.max2 total_assets (VPy 10000); py_math_log m);

  (* Calculate working capital items *)
  let current_assets :=
    (safe_get balance_sheet ["Current Assets"; "TotalCurrentAssets"] 0).1 in
  let current_liabilities :=
    (safe_get balance_sheet ["Current Liabilities"; "TotalCurrentLiabilities"] 0).1 in
  working_capital ← lift (V.sub current_assets current_liabilities);

  (* Get total liabilities *)
  let total_liabilities :=
    (safe_get balance_sheet
       ["Total Liabilities Net Minority Interest"; "TotalLiabilities"] 0).1 in

  (* Calculate key ratios *)
  tlta ← lift (if negb (is_problematic total_liabilities)
               then V.div total_liabilities total_assets else Ok (VPy 0));
  wcta ← lift (V.div working_capital total_assets);
  clca ← lift (if negb (is_problematic current_assets)
               then V.div current_liabilities current_assets else Ok (VPy 0));
  oeneg ← lift (c ← V.gt total_liabilities total_assets; Ok (indicator c));

  (* Get net income *)
  let net_income := (safe_get income_stmt ["Net Income"; "NetIncome"] 0).1 in
  net_income ←
    (if is_problematic net_income then
       let operating_income :=
         (safe_get income_stmt ["Operating Income"; "OperatingIncome"] 0).1 in
       let interest_expense :=
         (safe_get income_stmt ["Interest Expense"; "InterestExpense"] 0).1 in
       let tax_expense := (safe_get income_stmt ["Tax Provision"; "TaxProvision"] 0).1 in
       net_income ← lift (var operating_income - var interest_expense - var tax_expense)%py;
       (if negb (is_problematic net_income) then
          substituted "Net Income (Operating Income - Interest - Tax)"
        else problem "Net Income");;
       ret net_income
     else ret net_income);

  nita ← lift (if negb (is_problematic net_income)
               then V.div net_income total_assets else Ok (VPy 0));

  (* Get previous year's net income for change calculation *)
  '(intwo, chin) ←
    try_except (
      let prev_net_income := (safe_get income_stmt ["Net Income"; "NetIncome"] 1).1 in
      intwo ← lift (a ← V.lt net_income (VPy 0);
                    if a : bool then
                      b ← V.lt prev_net_income (VPy 0); Ok (indicator b)
                    else Ok (indicator false));
      chin ← lift ((var net_income - var prev_net_income)
                   / (V.vabs net_income + V.vabs prev_net_income))%py;
      ret (intwo, chin))
    (λ _,
      substituted "Previous year's data not available";;
      ret (VPy 0, VPy 0));

  ret {| size := size; tlta := tlta; wcta := wcta; clca := clca;
         oeneg := oeneg; nita := nita; intwo := intwo; chin := chin |}.

(** The second part: the score and the probability. *)
Definition ohlson_score (t : ohlson_terms) : M ohlson_result ohlson_result :=
  (* Calculate O-Score *)
  o_score ← lift
    (lit (-1.32) - lit 0.407 * var (size t) + lit 6.03 * var (tlta t)
     - lit 1.43 * var (wcta t) + lit 0.0757 * var (clca t) + lit 2.37 * var (oeneg t)
     - lit 1.83 * var (nita t) + lit 0.285 * var (intwo t) - lit 1.72 * var (oeneg t)
     - lit 0.521 * var (chin t))%py;

  (* Calculate probability of default *)
  prob_default ← lift
    (lit 1 / (lit 1 + (m ← V.neg o_score; py_math_exp m)))%py;

  return_ (Some o_score, Some prob_default).

Definition calculate_ohlson_score (company : Company)
  : result (ohlson_result * list string * list string) :=
  run (
    try_except (
      terms ← ohlson_ratios company;
      ohlson_score terms)
    (λ e,
      problem ("Calculation Error: " +:+ e);;
      return_ (None, None))).
End Ohlson.

(** ** [calculate_merton_default] *)

Section Merton.
Variable lib : numlib.

Open Scope float_scope.

(** The result of the function: [(prob_default, distance_to_default)]. *)
Definition merton_result : Type := option float * option float.

(** *** Price history: the 1y, 6mo, 3mo windows *)
Definition fetch_stock_data (company : Company) : M merton_result History :=
  try_except (
    stock_data ← lift (history company "1y");
    if bool_decide (h_len stock_data < 30)%nat then
      stock_data ← lift (history company "6mo");
      if bool_decide (h_len stock_data < 30)%nat then
        stock_data ← lift (history company "3mo");
        if bool_decide (h_len stock_data < 30)%nat then
          problem "Insufficient stock price history";;
          return_ (None, None)
        else
          substituted "Using 3-month price history for volatility";;
          ret stock_data
      else
        substituted "Using 6-month price history for volatility";;
        ret stock_data
    else ret stock_data)
  (λ e,
    problem ("Error fetching stock data: " +:+ e);;
    return_ (None, None)).

(** *** Equity volatility *)

(** [np.log(s / s.shift(1))]: the first entry divides by NaN. *)
Definition log_returns (s : list float) : list float :=
  map (np_log lib) (zip_with PrimFloat.div s (nan :: s)).

(** [np.log(high / low)] *)
Definition log_range (high low : list float) : list float :=
  map (np_log lib) (zip_with PrimFloat.div high low).

(** [std == 0 or np.isnan(std)] *)
Definition unusable (std : float) : bool := (std =? 0) || F.isnan std.

Definition sqrt_252 : float := sqrt 252.

Definition equity_volatility (stock_data : History) : M merton_result float :=
  try_except (
    close ← lift (column stock_data "Close");
    let returns := log_returns close in
    returns ←
      (if unusable (series_std lib returns) then
         adj ← lift (column stock_data "Adj Close");
         let returns := log_returns adj in
         if unusable (series_std lib returns) then
           high ← lift (column stock_data "High");
           low ← lift (column stock_data "Low");
           substituted "Using high-low range for volatility calculation";;
           ret (log_range high low)
         else
           substituted "Using adjusted close prices for volatility";;
           ret returns
       else ret returns);
    let equity_vol := series_std lib returns * sqrt_252 in
    if F.isnan equity_vol || (equity_vol =? 0) then
      substituted "Using market average volatility (0.3)";;
      ret 0.3
    else ret equity_vol)
  (λ e,
    problem ("Error calculating volatility: " +:+ e);;
    return_ (None, None)).

(** *** Market value of equity (E) *)

(** [stock_data['Close'].iloc[-1]] *)
Definition latest_close (stock_data : History) : result value :=
  close ← column stock_data "Close";
  match last close with
  | Some x => Ok (VNp x)
  | None => Raise "single positional indexer is out-of-bounds"
  end.

Definition resolve_market_cap (stock_data : History) (balance_sheet : DataFrame)
    (info : gmap string value) : M merton_result value :=
  let market_cap := info_get info "marketCap" in
  if is_problematic market_cap then
    let shares := info_get info "sharesOutstanding" in
    shares ←
      (if is_problematic shares then
         let shares := info_get info "floatShares" in
         (if negb (is_problematic shares) then
            substituted "Using float shares instead of shares outstanding"
          else ret ());;
         ret shares
       else ret shares);
    let price := info_get info "currentPrice" in
    price ←
      (if is_problematic price then
         price ← lift (latest_close stock_data);
         substituted "Using latest closing price";;
         ret price
       else ret price);
    market_cap ← lift (V.mul shares price);
    if negb (is_problematic market_cap) then
      substituted "Market Cap (calculated from Shares * Price)";;
      ret market_cap
    else
      let total_equity := (safe_get balance_sheet ["Total Equity"; "TotalEquity"] 0).1 in
      if negb (is_problematic total_equity) then
        market_cap ← lift (V.mul total_equity (VPy 1.1));
        substituted "Using book value of equity with premium";;
        ret market_cap
      else
        problem "Market Value of Equity";;
        return_ (None, None)
  else ret market_cap.

(** *** Face value of debt (F) *)
Definition resolve_total_liabilities (balance_sheet : DataFrame) : M merton_result value :=
  let total_liabilities :=
    (safe_get balance_sheet
       ["Total Liabilities Net Minority Interest"; "TotalLiabilities"; "Total Liabilities"]
       0).1 in
  if is_problematic total_liabilities then
    let current_liabilities :=
      (safe_get balance_sheet ["Current Liabilities"; "TotalCurrentLiabilities"] 0).1 in
    let long_term_debt := (safe_get balance_sheet ["Long Term Debt"; "LongTermDebt"] 0).1 in
    total_liabilities ← lift (V.add current_liabilities long_term_debt);
    if negb (is_problematic total_liabilities) then
      substituted "Total Liabilities (sum of current liabilities and long-term debt)";;
      ret total_liabilities
    else
      let total_debt := (safe_get balance_sheet ["Total Debt"; "TotalDebt"] 0).1 in
      if negb (is_problematic total_debt) then
        total_liabilities ← lift (V.mul total_debt (VPy 1.2));
        substituted "Using total debt with adjustment for non-debt liabilities";;
        ret total_liabilities
      else
        problem "Total Liabilities";;
        return_ (None, None)
  else ret total_liabilities.

(** *** The solver: implied asset value and volatility

    From here on every operand is a float64: [total_liabilities] comes
    out of a frame (lemma [resolve_total_liabilities_np]), so
    [V_A = market_cap + total_liabilities] is one, and so is whatever
    [np.log], [np.sqrt] and [norm.cdf] return.  The solver is therefore
    written on the binary64 payloads, with numpy's arithmetic, which
    returns inf or NaN where Python's own would raise.  [x**2] is
    [x * x]. *)

(* [try: rf_rate = 0.05 except: ...]: the assignment cannot raise. *)
Definition rf_rate : float := 0.05.
Definition T : float := 1.0.
Definition max_iterations : nat := 100.
Definition convergence_threshold : float := 0.0001.

Inductive step : Type :=
| Converged
| Continue (V_A sigma_A : float).

(** The statements inside the [try] of the loop. *)
Definition iteration_body (market_cap total_liabilities equity_vol V_A sigma_A : float)
  : result step :=
  let d1 := (np_log lib (V_A / total_liabilities)
             + (rf_rate + 0.5 * (sigma_A * sigma_A)) * T) / (sigma_A * sqrt T) in
  let d2 := d1 - sigma_A * sqrt T in
  let V_A_new := market_cap / norm_cdf lib d1 in
  let sigma_A_new := equity_vol * market_cap / (V_A * norm_cdf lib d1) in
  if (abs (V_A_new - V_A) <? convergence_threshold)
     && (abs (sigma_A_new - sigma_A) <? convergence_threshold)
  then Ok Converged
  else Ok (Continue (0.5 * (V_A + V_A_new)) (0.5 * (sigma_A + sigma_A_new))).

(** [for i in range(max_iterations)], with [fuel] iterations left; the
    result is [(V_A, sigma_A, converged)] after the loop. *)
Fixpoint iterate (market_cap total_liabilities equity_vol : float)
    (fuel i : nat) (V_A sigma_A : float) : M merton_result (float * float * bool) :=
  match fuel with
  | O => ret (V_A, sigma_A, false)
  | S fuel' =>
      s ← try_except (
            s ← lift (iteration_body market_cap total_liabilities equity_vol V_A sigma_A);
            ret (Some s))
          (λ e,
            problem ("Convergence error in iteration " +:+ pretty i +:+ ": " +:+ e);;
            (* Use last valid values *)
            ret None);
      match s with
      | Some Converged => ret (V_A, sigma_A, true)
      | Some (Continue V_A' sigma_A') =>
          iterate market_cap total_liabilities equity_vol fuel' (S i) V_A' sigma_A'
      | None => ret (V_A, sigma_A, false)
      end
  end.

Definition implied_assets (market_cap total_liabilities equity_vol : float)
  : M merton_result (float * float * bool) :=
  let V_A := market_cap + total_liabilities in          (* Initial guess *)
  let sigma_A := equity_vol * market_cap / V_A in       (* Initial guess *)
  iterate market_cap total_liabilities equity_vol max_iterations 0 V_A sigma_A.

(** Distance to default, probability of default and the sanity checks. *)
Definition final_probability (total_liabilities V_A sigma_A : float)
  : M merton_result merton_result :=
  try_except (
    let distance_to_default :=
      (np_log lib (V_A / total_liabilities)
       + (rf_rate - 0.5 * (sigma_A * sigma_A)) * T) / (sigma_A * sqrt T) in
    let prob_default := norm_cdf lib (- distance_to_default) in
    prob_default ←
      (if 0.99 <? prob_default then
         substituted "Capped probability at 99%";;
         ret 0.99
       else if prob_default <? 0.01 then
         substituted "Floored probability at 1%";;
         ret 0.01
       else ret prob_default);
    return_ (Some prob_default, Some distance_to_default))
  (λ e,
    problem ("Error in final probability calculation: " +:+ e);;
    return_ (None, None)).

Definition merton_solve (market_cap total_liabilities equity_vol : float)
  : M merton_result merton_result :=
  '(V_A, sigma_A, converged) ← implied_assets market_cap total_liabilities equity_vol;
  (if negb converged then
     substituted "Using last iteration values (no convergence)"
   else ret ());;
  final_probability total_liabilities V_A sigma_A.

Definition calculate_merton_default (company : Company)
  : result (merton_result * list string * list string) :=
  run (
    try_except (
      stock_data ← fetch_stock_data company;
      equity_vol ← equity_volatility stock_data;
      balance_sheet ← lift (balance_sheet company);
      income_stmt ← lift (income_stmt company);
      info ← lift (info company);
      market_cap ← resolve_market_cap stock_data balance_sheet info;
      total_liabilities ← resolve_total_liabilities balance_sheet;
      merton_solve (V.payload market_cap) (V.payload total_liabilities) equity_vol)
    (λ e,
      problem ("Merton Model Calculation Error: " +:+ e);;
      return_ (None, None))).
End Merton.

(** * Properties *)

(** ** A small logic for calculator bodies

    [hoare I Qr c Q]: started on notes satisfying the invariant [I], the
    body [c] either goes on with a value satisfying [Q] and notes
    satisfying [I], or returns a result [r] with notes [n'] such that
    [Qr r n'], or raises with notes satisfying [I] (the exception is left
    to the enclosing handler). *)

Definition add_problem (n : notes) (s : string) : notes :=
  {| problematic_values := problematic_values n ++ [s];
     substituted_values := substituted_values n |}.

Definition add_substituted (n : notes) (s : string) : notes :=
  {| problematic_values := problematic_values n;
     substituted_values := substituted_values n ++ [s] |}.

Definition hoare {R A} (I : notes → Prop) (Qr : R → notes → Prop)
    (c : M R A) (Q : A → Prop) : Prop :=
  ∀ n, I n →
       match c n with
       | (Normal a, n') => I n' ∧ Q a
       | (Return r, n') => Qr r n'
       | (Raised _, n') => I n'
       end.

(** The instance behind "an absent score comes with a reason": no
    invariant, and a returned result that is absent finds the problematic
    list non-empty. *)
Definition accounted {R} (absent : R → Prop) (r : R) (n : notes) : Prop :=
  absent r → problematic_values n ≠ [].

Definition anything (n : notes) : Prop := True.

Definition z_absent (r : option value) : Prop := r = None.
Definition ohlson_absent (r : option value * option value) : Prop :=
  r.1 = None ∨ r.2 = None.
Definition merton_absent (r : merton_result) : Prop := r.1 = None.

(** ** [safe_get] as the specification words it *)

(** The value of row [key] for period [index], when the frame has both. *)
Definition cell (df : DataFrame) (key : string) (index : nat) : option float :=
  row ← df_rows df !! key;
  if bool_decide (index < df_ncols df) then Some (default nan (row !! index)) else None.

(** A value is problematic when it is NaN (missing), infinite, zero, or
    smaller in magnitude than 1e-6. *)
Definition problematic_float (x : float) : Prop :=
  F.isnan x = true ∨ F.isinf x = true ∨ PrimFloat.eqb x 0 = true
  ∨ PrimFloat.ltb (abs x) 1e-6 = true.

(** A candidate name qualifies when the frame has a row of that name whose
    value for the period is not problematic. *)
Definition qualifies (df : DataFrame) (index : nat) (key : string) : bool :=
  match cell df key index with
  | Some x => negb (is_problematic (VNp x))
  | None => false
  end.

(** The first candidate, in list order, that qualifies, with its value. *)
Definition first_qualifying (df : DataFrame) (keys : list string) (index : nat)
  : option (float * string) :=
  key ← List.find (qualifies df index) keys;
  x ← cell df key index;
  Some (x, key).

(** The sentinel of [safe_get]. *)
Definition sentinel : value * option string := (VPy 0, None).

(** ** The Merton iteration as the specification words it *)

Module MertonSpec.
Section Iteration.
Variables ln Phi : float → float.
Variables E F sigma_E : float.

Open Scope float_scope.

(** A state of the iteration: [(V_A, sigma_A)]. *)
Definition state : Type := float * float.

Definition initial : state := (E + F, sigma_E * E / (E + F)).

Definition d1 (s : state) : float :=
  (ln (s.1 / F) + (0.05 + 0.5 * (s.2 * s.2)) * 1.0) / (s.2 * sqrt 1.0).

Definition V_A_new (s : state) : float := E / Phi (d1 s).
Definition sigma_A_new (s : state) : float := sigma_E * E / (s.1 * Phi (d1 s)).

Definition converged (s : state) : bool :=
  (abs (V_A_new s - s.1) <? 1e-4) && (abs (sigma_A_new s - s.2) <? 1e-4).

Definition damp (s : state) : state :=
  (0.5 * (s.1 + V_A_new s), 0.5 * (s.2 + sigma_A_new s)).

(** The state after [k] dampened updates of [s]. *)
Definition after (k : nat) (s : state) : state := Nat.iter k damp s.

(** Starting from [s] with [fuel] iterations allowed, the iteration
    stops at [k] when the test first holds there... *)
Definition stops_at (fuel : nat) (s : state) (k : nat) : Prop :=
  (k < fuel)%nat ∧ converged (after k s) = true
  ∧ ∀ j, (j < k)%nat → converged (after j s) = false.

(** ... and is exhausted when it holds at none of the iterations. *)
Definition exhausted (fuel : nat) (s : state) : Prop :=
  ∀ j, (j < fuel)%nat → converged (after j s) = false.

(** What the loop hands on: the state it stopped in and whether the test
    held. *)
Definition outcome_of (fuel : nat) (s : state) (r : float * float * bool) : Prop :=
  (∃ k, stops_at fuel s k ∧ r = (after k s, true))
  ∨ (exhausted fuel s ∧ r = (after fuel s, false)).

(** Distance to default and the clamped probability. *)
Definition DD (s : state) : float :=
  (ln (s.1 / F) + (0.05 - 0.5 * (s.2 * s.2)) * 1.0) / (s.2 * sqrt 1.0).

Definition clamp (p : float) : float :=
  if 0.99 <? p then 0.99 else if p <? 0.01 then 0.01 else p.
End Iteration.
End MertonSpec.

(** The probability and the distance the solver returns for equity value
    [E], debt [F] and equity volatility [sigma_E]. *)
Definition merton_probability (lib : numlib) (E F sigma_E : float) : option float :=
  match merton_solve lib E F sigma_E no_notes with
  | (Return (p, _), _) => p
  | _ => None
  end.

Definition merton_distance (lib : numlib) (E F sigma_E : float) : option float :=
  match merton_solve lib E F sigma_E no_notes with
  | (Return (_, d), _) => d
  | _ => None
  end.

(** The notes of the solver: what it adds to [n] when it ends in state
    [(V_A, sigma_A)] with unclamped probability [p]. *)
Definition solver_notes (n : notes) (converged : bool) (p : float) : notes :=
  let n1 := if converged then n
            else add_substituted n "Using last iteration values (no convergence)" in
  if PrimFloat.ltb 0.99 p then add_substituted n1 "Capped probability at 99%"
  else if PrimFloat.ltb p 0.01 then add_substituted n1 "Floored probability at 1%"
  else n1.

(** ** Example companies *)

Module Examples.

Open Scope float_scope.

Definition frame (ncols : nat) (rows : list (string * list float)) : DataFrame :=
  {| df_ncols := ncols; df_rows := list_to_map rows |}.

Definition prices (len : nat) (cols : list (string * list float)) : History :=
  {| h_len := len; h_cols := list_to_map cols |}.

(** Thirty trading days of a share that moves between 100 and 102. *)
Fixpoint zigzag (n : nat) (a b : float) : list float :=
  match n with
  | O => []
  | S n' => a :: zigzag n' b a
  end.

Definition moving_prices : History :=
  prices 30 [("Close", zigzag 30 100 102);
             ("High", zigzag 30 101 103);
             ("Low", zigzag 30 99 101)].

(** A suspended share as [company.history] returns it: no close-to-close
    movement, a day range that does vary, and no adjusted-close column. *)
Definition flat_prices_unadjusted : History :=
  prices 30 [("Close", replicate 30 100);
             ("High", zigzag 30 101 103);
             ("Low", replicate 30 99)].

Definition short_prices : History :=
  prices 12 [("Close", zigzag 12 100 102)].

(** A bank: one billion of equity against a hundred billion of
    liabilities. *)
Definition bank_balance_sheet : DataFrame :=
  frame 2 [("Total Assets", [101e9; 99e9]);
           ("Total Liabilities Net Minority Interest", [100e9; 98e9]);
           ("Retained Earnings", [4e8; 3e8])].

Definition bank_income_stmt : DataFrame :=
  frame 2 [("Total Revenue", [5e9; 4.8e9]);
           ("EBIT", [9e8; 8e8]);
           ("Net Income", [3e8; 2.5e8])].

Definition bank_info : gmap string value :=
  list_to_map [("marketCap", VPy 1e9)].

Definition with_history (h : History) : Company :=
  {| history := λ _, Ok h;
     balance_sheet := Ok bank_balance_sheet;
     income_stmt := Ok bank_income_stmt;
     info := Ok bank_info |}.

Definition bank : Company := with_history moving_prices.

(** A company whose price history is too short in every window. *)
Definition newly_listed : Company := with_history short_prices.

(** A geared company: liabilities of two million against a market
    capitalisation that is left open, and the moving share. *)
Definition geared_balance_sheet : DataFrame :=
  frame 2 [("Total Assets", [3e6; 3e6]);
           ("Total Liabilities Net Minority Interest", [2e6; 2e6])].

Definition geared (market_cap : float) : Company :=
  {| history := λ _, Ok moving_prices;
     balance_sheet := Ok geared_balance_sheet;
     income_stmt := Ok bank_income_stmt;
     info := Ok (list_to_map [("marketCap", VPy market_cap)]) |}.

(** A company whose data provider is down. *)
Definition unreachable : Company :=
  {| history := λ _, Raise "connection refused";
     balance_sheet := Raise "connection refused";
     income_stmt := Raise "connection refused";
     info := Raise "connection refused" |}.

End Examples.

(** ** The claims about the solver, as stated *)

(** "Holding F and sigma_E fixed, increasing E strictly decreases the
    resulting default probability." *)
Definition strictly_decreasing_in_E (lib : numlib) : Prop :=
  ∀ E1 E2 F sigma_E p1 p2,
    PrimFloat.ltb 0 E1 = true → PrimFloat.ltb E1 E2 = true →
    PrimFloat.ltb 0 F = true → PrimFloat.ltb 0 sigma_E = true →
    merton_probability lib E1 F sigma_E = Some p1 →
    merton_probability lib E2 F sigma_E = Some p2 →
    PrimFloat.ltb p2 p1 = true.

(** "A probability in [0.01, 0.99] and a finite distance-to-default." *)
Definition in_range (p : float) : bool :=
  PrimFloat.leb 0.01 p && PrimFloat.leb p 0.99.

(** ** The O-Score as the specification words it *)

Module OhlsonSpec.

Open Scope float_scope.

Definition O_score (size tlta wcta clca oeneg nita intwo chin : float) : float :=
  -1.32 - 0.407 * size + 6.03 * tlta - 1.43 * wcta + 0.0757 * clca
  + 2.37 * oeneg - 1.83 * nita + 0.285 * intwo - 1.72 * oeneg - 0.521 * chin.

(** [1 / (1 + exp(-o_score))], given [exp(-o_score)]. *)
Definition probability (exp_minus_o : float) : float := 1 / (1 + exp_minus_o).

Definition O_score_of (t : ohlson_terms) : float :=
  O_score (V.payload (size t)) (V.payload (tlta t)) (V.payload (wcta t))
    (V.payload (clca t)) (V.payload (oeneg t)) (V.payload (nita t))
    (V.payload (intwo t)) (V.payload (chin t)).

End OhlsonSpec.

(** A value that is a number. *)
Definition is_num (v : value) : Prop := v ≠ VNone.

(** An expression evaluates, without raising, to a number with payload [x]. *)
Definition evals (c : result value) (x : float) : Prop :=
  ∃ v, c = Ok v ∧ is_num v ∧ V.payload v = x.

Definition numeric_terms (t : ohlson_terms) : Prop :=
  is_num (size t) ∧ is_num (tlta t) ∧ is_num (wcta t) ∧ is_num (clca t)
  ∧ is_num (oeneg t) ∧ is_num (nita t) ∧ is_num (intwo t) ∧ is_num (chin t).

(** "Given a price series with zero-variance closes but non-zero high/low
    spread, the solver must fall back to high-low-range-derived volatility
    rather than reporting failure." *)
Definition falls_back_to_range (lib : numlib) : Prop :=
  ∀ (stock_data : History) (close high low : list float) (n : notes),
    30 ≤ h_len stock_data →
    column stock_data "Close" = Ok close →
    column stock_data "High" = Ok high →
    column stock_data "Low" = Ok low →
    unusable (series_std lib (log_returns lib close)) = true →
    unusable (series_std lib (log_range lib high low) * sqrt_252)%float = false →
    equity_volatility lib stock_data n =
    (Normal (series_std lib (log_range lib high low) * sqrt_252)%float,
     add_substituted n "Using high-low range for volatility calculation").

(** ** The notes of [calculate_z_score]

    Every note the Z-Score calculator can attach to a score it returns.
    None of them is about working capital, current assets or current
    liabilities. *)
Definition z_score_notes : list string :=
  ["Total Assets (calculated from Current + Non-Current Assets)";
   "Retained Earnings (calculated from Total Equity - Capital Stock)";
   "Retained Earnings";
   "EBIT (calculated from EBITDA - Depreciation)";
   "EBIT";
   "Market Value (calculated from Shares * Price)";
   "Market Value";
   "Sales/Revenue"].

Definition only_z_score_notes (n : notes) : Prop :=
  ∀ note, note ∈ problematic_values n ++ substituted_values n → note ∈ z_score_notes.

(** What numpy and scipy return on the special values: the logarithm of a
    negative number and of NaN is NaN (with a warning, not an exception),
    and the distribution function of NaN is NaN. *)
Definition nan_propagating (lib : numlib) : Prop :=
  (∀ x, PrimFloat.ltb x 0 = true → np_log lib x = nan)
  ∧ np_log lib nan = nan
  ∧ norm_cdf lib nan = nan.

(** * [login_system.py]: the login gate

    The session lives in [st.session_state]; a [datetime] is its number of
    microseconds and a [timedelta] a number of microseconds, so the
    comparison of [check_session] is exact.  [hashlib.pbkdf2_hmac] is a
    parameter: every theorem holds for whatever function derives the
    key. *)

Module Login.

Definition datetime : Type := Z.

(** [timedelta(minutes=m)], in microseconds. *)
Definition minutes (m : Z) : Z := (m * 60000000)%Z.

(** [st.session_state] as the login system uses it.  A key that is not
    in the state is [None] at the outer level. *)
Record raw_session : Type := {
  raw_login_time : option (option datetime);
  raw_authenticated : option bool;
  raw_user_email : option string;
}.

(** The state once a [LoginManager] exists: [login_time] and
    [authenticated] are there; [user_email] may not be. *)
Record session : Type := {
  login_time : option datetime;
  authenticated : bool;
  user_email : option string;
}.

Definition to_raw (s : session) : raw_session :=
  {| raw_login_time := Some (login_time s);
     raw_authenticated := Some (authenticated s);
     raw_user_email := user_email s |}.

(** A browser session that has not run the script yet. *)
Definition fresh : raw_session :=
  {| raw_login_time := None; raw_authenticated := None; raw_user_email := None |}.

Section Manager.
(** [hashlib.pbkdf2_hmac('sha256', password, salt, iterations).hex()] *)
Variable pbkdf2_hmac_sha256_hex : string → string → Z → string.

Record LoginManager : Type := {
  timeout_minutes : Z;
  users : gmap string string;
}.

Definition hash_password (password : string) : string :=
  let salt := "financial_analyzer_salt" in
  pbkdf2_hmac_sha256_hex password salt 100000.

(** [LoginManager.__init__]: the manager, and the session state with its
    two keys initialised where they were missing. *)
Definition init (timeout_minutes : Z) (st : raw_session) : LoginManager * session :=
  ({| timeout_minutes := timeout_minutes;
      users := <["demo@example.com" := hash_password "demo123"]>
                 (<["admin@example.com" := hash_password "admin123"]> ∅) |},
   {| login_time := default None (raw_login_time st);
      authenticated := default false (raw_authenticated st);
      user_email := raw_user_email st |}).

(** [hmac.compare_digest] on two hex strings. *)
Definition compare_digest (a b : string) : bool := bool_decide (a = b).

Definition verify_password (self : LoginManager) (email password : string) : bool :=
  match users self !! email with
  | None => false
  | Some stored =>
      let hashed_input := hash_password password in
      compare_digest hashed_input stored
  end.

(** [login]; [now] is what [datetime.now()] returns. *)
Definition login (self : LoginManager) (email password : string) (now : datetime)
    (st : session) : bool * session :=
  if verify_password self email password then
    (true, {| login_time := Some now; authenticated := true; user_email := Some email |})
  else (false, st).

Definition logout (st : session) : session :=
  {| login_time := None; authenticated := false; user_email := None |}.

(** [check_session] reads the clock twice: [now] for the elapsed time and
    [later] for the new login time. *)
Definition check_session (self : LoginManager) (now later : datetime) (st : session)
  : bool * session :=
  if negb (authenticated st) then (false, st)
  else
    match login_time st with
    | None => (false, st)
    | Some t =>
        let elapsed := (now - t)%Z in
        if bool_decide (elapsed > minutes (timeout_minutes self))%Z then
          (false, logout st)
        else
          (true, {| login_time := Some later;
                    authenticated := authenticated st;
                    user_email := user_email st |})
    end.

(** What the visitor does on one run of the script: the text in the two
    inputs and the buttons pressed. *)
Record visitor : Type := {
  typed_email : string;
  typed_password : string;
  sign_in_pressed : bool;
  logout_pressed : bool;
}.

(** The three clock readings of one run. *)
Record clock : Type := {
  at_check : datetime;
  at_touch : datetime;
  at_login : datetime;
}.

(** How a run of the script leaves the login system: [st.stop()],
    [st.experimental_rerun()], or on to the rest of the page. *)
Inductive control : Type :=
| Stop (message : option string)
| Rerun
| Proceed.

(** [render_login_page], as far as the session is concerned. *)
Definition render_login_page (v : visitor) (c : clock) (st : session) : control * session :=
  if sign_in_pressed v then
    let '(login_manager, st) := init 30 (to_raw st) in
    let '(ok, st) := login login_manager (typed_email v) (typed_password v) (at_login c) st in
    if ok then (Rerun, st)
    else (Stop (Some "Invalid email or password"), st)
  else (Stop None, st).

Definition initialize_login_system (v : visitor) (c : clock) (raw : raw_session)
  : control * session :=
  let '(login_manager, st) := init 30 raw in
  let '(valid, st) := check_session login_manager (at_check c) (at_touch c) st in
  if negb valid then
    (* the page renders, then [st.stop()]; a successful sign-in reruns first *)
    render_login_page v c st
  else if logout_pressed v then (Rerun, logout st)
  else (Proceed, st).

(** One event in the life of a session: a sign-in attempt, a logout, a
    session check. *)
Inductive event : Type :=
| SignIn (email password : string) (now : datetime)
| SignOut
| Check (now later : datetime).

Definition step (self : LoginManager) (st : session) (e : event) : session :=
  match e with
  | SignIn email password now => (login self email password now st).2
  | SignOut => logout st
  | Check now later => (check_session self now later st).2
  end.

Definition run_events (self : LoginManager) (st : session) (es : list event) : session :=
  foldl (step self) st es.

(** The session is consistent: signed in with a login time and the email
    of a known user, or signed out with neither. *)
Definition consistent (self : LoginManager) (st : session) : Prop :=
  if authenticated st
  then is_Some (login_time st)
       ∧ ∃ email, user_email st = Some email ∧ is_Some (users self !! email)
  else login_time st = None ∧ user_email st = None.

(** A run of session checks, each made within the timeout of the moment
    the last one touched the session. *)
Fixpoint paced (self : LoginManager) (t : datetime) (checks : list (datetime * datetime))
  : Prop :=
  match checks with
  | [] => True
  | (now, later) :: rest =>
      (now - t <= minutes (timeout_minutes self))%Z ∧ paced self later rest
  end.

(** The results of a run of session checks, and the session after it. *)
Fixpoint check_all (self : LoginManager) (st : session) (checks : list (datetime * datetime))
  : list bool * session :=
  match checks with
  | [] => ([], st)
  | (now, later) :: rest =>
      let '(ok, st) := check_session self now later st in
      let '(oks, st) := check_all self st rest in
      (ok :: oks, st)
  end.

(** The session state holds a live session at the time of the check:
    authenticated, with a login time no more than the timeout before. *)
Definition live_session (timeout_minutes : Z) (now : datetime) (raw : raw_session) : Prop :=
  raw_authenticated raw = Some true
  ∧ ∃ t, raw_login_time raw = Some (Some t) ∧ (now - t <= minutes timeout_minutes)%Z.

Definition is_sign_in (e : event) : bool :=
  match e with SignIn _ _ _ => true | _ => false end.

(** The two credential pairs of the demo table. *)
Definition demo_credentials (email password : string) : Prop :=
  (email = "demo@example.com" ∧ password = "demo123")
  ∨ (email = "admin@example.com" ∧ password = "admin123").

End Manager.

(** A stand-in key derivation, to instantiate the theorems with. *)
Definition toy_kdf (password salt : string) (iterations : Z) : string :=
  salt +:+ "$" +:+ password.

End Login.

(** ** What [calculate_merton_default] hands back *)

(** A complete result: the probability and the distance the solver gives
    for some equity value, debt and equity volatility, the volatility
    being neither zero nor NaN, and the probability neither above the cap
    nor below the floor. *)
Definition merton_complete (lib : numlib) (r : merton_result) : Prop :=
  ∃ E F sigma_E prob distance,
    PrimFloat.eqb sigma_E 0 = false ∧ F.isnan sigma_E = false
    ∧ merton_probability lib E F sigma_E = Some prob
    ∧ merton_distance lib E F sigma_E = Some distance
    ∧ r = (Some prob, Some distance)
    ∧ PrimFloat.ltb 0.99 prob = false ∧ PrimFloat.ltb prob 0.01 = false.

(** Either nothing, with the one reason for it, or a complete result and
    no problematic value. *)
Definition merton_all_or_nothing (lib : numlib) (r : merton_result) (n : notes) : Prop :=
  (r = (None, None) ∧ ∃ reason, problematic_values n = [reason])
  ∨ (merton_complete lib r ∧ problematic_values n = []).

Definition no_problem (n : notes) : Prop := problematic_values n = [].

(** ** A body that does not raise

    [completes I Qr c Q]: started on notes satisfying [I], the body [c]
    goes on with a value satisfying [Q] or returns a result satisfying
    [Qr]; it does not raise. *)
Definition completes {R A} (I : notes → Prop) (Qr : R → notes → Prop)
    (c : M R A) (Q : A → Prop) : Prop :=
  ∀ n, I n →
       match c n with
       | (Normal a, n') => I n' ∧ Q a
       | (Return r, n') => Qr r n'
       | (Raised _, _) => False
       end.

(** ** The Z-Score in terms of the statements

    What [calculate_z_score] computes, as a function of the balance
    sheet, the income statement and the company information: each input
    with its fallback, then the five ratios and the weighted sum. *)
Module ZSpec.
Section Inputs.
Variables (bs inc : DataFrame) (info : gmap string value).

Open Scope float_scope.

(** The most recent value found under one of the names, 0 if none. *)
Definition latest (df : DataFrame) (keys : list string) : value := (safe_get df keys 0).1.

Definition total_assets : float :=
  let reported := latest bs ["Total Assets"; "TotalAssets"] in
  if is_problematic reported then
    V.payload (latest bs ["Current Assets"; "TotalCurrentAssets"])
    + V.payload (latest bs ["Non Current Assets"; "TotalNonCurrentAssets"])
  else V.payload reported.

Definition working_capital : float :=
  V.payload (latest bs ["Current Assets"; "CurrentAssets"; "TotalCurrentAssets"])
  - V.payload (latest bs ["Current Liabilities"; "CurrentLiabilities";
                          "TotalCurrentLiabilities"]).

Definition retained_earnings : float :=
  let reported := latest bs ["Retained Earnings"; "RetainedEarnings"] in
  if is_problematic reported then
    V.payload (latest bs ["Total Equity"; "TotalEquity"])
    - V.payload (latest bs ["Capital Stock"; "CommonStock"])
  else V.payload reported.

Definition ebit : float :=
  let reported := latest inc ["EBIT"; "OperatingIncome"] in
  if is_problematic reported then
    V.payload (latest inc ["EBITDA"])
    - V.payload (latest inc ["Depreciation"; "DepreciationAndAmortization"])
  else V.payload reported.

Definition market_value : float :=
  let reported := info_get info "marketCap" in
  if is_problematic reported then
    V.payload (info_get info "sharesOutstanding") * V.payload (info_get info "currentPrice")
  else V.payload reported.

Definition total_liabilities : value :=
  latest bs ["Total Liabilities Net Minority Interest"; "TotalLiabilities";
             "Total Liabilities"].

Definition sales : float :=
  V.payload (latest inc ["Total Revenue"; "TotalRevenue"; "Revenue"]).

Definition X4 : float :=
  if is_problematic total_liabilities then 0
  else market_value / V.payload total_liabilities.

Definition Z : float :=
  1.2 * (working_capital / total_assets) + 1.4 * (retained_earnings / total_assets)
  + 3.3 * (ebit / total_assets) + 0.6 * X4 + 1.0 * (sales / total_assets).

(** The market value can be computed: the market capitalisation is
    usable, or the share count and the price are numbers (not [None]). *)
Definition market_value_known : Prop :=
  if is_problematic (info_get info "marketCap") then
    info_get info "sharesOutstanding" ≠ VNone ∧ info_get info "currentPrice" ≠ VNone
  else True.

(** Total assets are resolved: reported, or the sum of the two parts. *)
Definition total_assets_resolved : bool := negb (is_problematic (VPy total_assets)).
End Inputs.
End ZSpec.

(** ** The sentinel of [safe_get] in [calculate_z_score] *)

(** The Z-Score of the statements for a given working capital: the
    formula of [ZSpec.Z] with [working_capital] in the place of current
    assets less current liabilities. *)
Definition z_score_with_working_capital (working_capital : float)
    (bs inc : DataFrame) (info : gmap string value) : float :=
  (1.2 * (working_capital / ZSpec.total_assets bs)
   + 1.4 * (ZSpec.retained_earnings bs / ZSpec.total_assets bs)
   + 3.3 * (ZSpec.ebit inc / ZSpec.total_assets bs)
   + 0.6 * ZSpec.X4 bs info
   + 1.0 * (ZSpec.sales inc / ZSpec.total_assets bs))%float.

(** The score [z] of [company] is the Z-Score of its statements computed
    with a working capital of [0 - 0]. *)
Definition scored_without_working_capital (company : Company) (z : value) : Prop :=
  ∃ bs inc info_,
    balance_sheet company = Ok bs ∧ income_stmt company = Ok inc
    ∧ info company = Ok info_
    ∧ z ≠ VNone
    ∧ V.payload z = z_score_with_working_capital (0 - 0) bs inc info_.

(** A score that is returned is the Z-Score of the statements that were
    fetched, and the notes with it are among the notes of the
    calculator. *)
Definition z_score_on_statements (yf_Ticker : string → result Company) (ticker : string)
    (r : option value) (n : notes) : Prop :=
  ∀ z, r = Some z →
    only_z_score_notes n
    ∧ ∃ company bs inc info_,
        yf_Ticker ticker = Ok company
        ∧ balance_sheet company = Ok bs ∧ income_stmt company = Ok inc
        ∧ info company = Ok info_
        ∧ z ≠ VNone ∧ V.payload z = ZSpec.Z bs inc info_.

(** ** The previous year in [calculate_ohlson_score] *)

Definition no_previous_year_note (n : notes) : Prop :=
  "Previous year's data not available" ∉ substituted_values n.

(** A company in its first year of reporting: statements with a single
    period. *)
Module FirstYear.
Open Scope float_scope.

Definition income_statement : DataFrame :=
  Examples.frame 1 [("Total Revenue", [5e9]); ("EBIT", [9e8]); ("Net Income", [3e8])].

Definition company : Company :=
  {| history := λ _, Ok Examples.moving_prices;
     balance_sheet := Ok Examples.bank_balance_sheet;
     income_stmt := Ok income_statement;
     info := Ok Examples.bank_info |}.
End FirstYear.

(** * The search box: from a suggestion to the ticker

    A Python [str] is a sequence of code points; the theorems hold for
    every type of characters and every [str.isspace], given the two
    characters of the separator. *)
Module Search.
Section Text.
Context {char : Type} `{EqDecision char}.
(** [c.isspace()], the space and the hyphen. *)
Variable is_space : char → bool.
Variables space hyphen : char.

Definition str : Type := list char.

(** [' - '] *)
Definition separator : str := [space; hyphen; space].

(** [s.split(sep)[0]]: what precedes the leftmost occurrence of [sep],
    the whole of [s] when there is none. *)
Fixpoint split_first (sep s : str) : str :=
  match s with
  | [] => []
  | c :: s' => if bool_decide (sep `prefix_of` s) then [] else c :: split_first sep s'
  end.

Fixpoint lstrip (s : str) : str :=
  match s with
  | [] => []
  | c :: s' => if is_space c then lstrip s' else s
  end.

Definition rstrip (s : str) : str := reverse (lstrip (reverse s)).

(** [s.strip()] *)
Definition strip (s : str) : str := rstrip (lstrip s).

(** A suggestion, as [get_company_suggestions] builds it. *)
Record suggestion : Type := {
  symbol : str;
  name : str;
  exchange : str;
  type : str;
}.

(** The session state of the search box. *)
Record search_state : Type := {
  selected_company : option suggestion;
  search_query : str;
  should_analyze : bool;
}.

(** [handle_suggestion_click], up to the rerun. *)
Definition handle_suggestion_click (s : suggestion) : search_state :=
  {| selected_company := Some s;
     search_query := symbol s ++ separator ++ name s;
     should_analyze := true |}.

(** The [on_change] callback of the text input. *)
Definition on_change (st : search_state) : search_state :=
  {| selected_company := None;
     search_query := search_query st;
     should_analyze := should_analyze st |}.

(** The ticker that [render_search_section] hands to the analysis, for
    the text [current_query] in the box ([None] when there is nothing to
    go by). *)
Definition ticker_to_analyze (st : search_state) (current_query : str) : option str :=
  match selected_company st with
  | Some s => Some (symbol s)
  | None =>
      match current_query with
      | _ :: _ =>
          let parts_0 := split_first separator current_query in
          Some (strip parts_0)
      | [] => None
      end
  end.
End Text.

(** Python's [str.isspace] on the ASCII range. *)
Definition ascii_is_space (c : Ascii.ascii) : bool :=
  let n := Ascii.nat_of_ascii c in
  bool_decide (n = 32 ∨ (9 ≤ n ∧ n ≤ 13) ∨ (28 ≤ n ∧ n ≤ 31)).

Definition ascii_space : Ascii.ascii := Ascii.ascii_of_nat 32.
Definition ascii_hyphen : Ascii.ascii := Ascii.ascii_of_nat 45.

Definition berkshire : suggestion (char := Ascii.ascii) :=
  {| symbol := String.list_ascii_of_string "BRK-B";
     name := String.list_ascii_of_string "Berkshire Hathaway - Class B";
     exchange := String.list_ascii_of_string "NYQ";
     type := String.list_ascii_of_string "EQUITY" |}.
End Search.

(** * The risk panels: [get_merton_color] and [get_status_and_color] *)
Module Display.
Open Scope float_scope.

Definition green : string := "rgba(76, 175, 80, 0.2)".
Definition amber : string := "rgba(255, 193, 7, 0.2)".
Definition red : string := "rgba(255, 82, 82, 0.2)".

Definition get_merton_color (prob : float) : string :=
  if prob <? 0.05 then green          (* Very low risk *)
  else if prob <? 0.15 then amber     (* Low risk *)
  else red.                           (* High risk *)

(** The function returns [None] when it is given neither score. *)
Definition get_status_and_color (z_score prob_default : option float)
  : option (string * string * string) :=
  match z_score with
  | Some z_score =>
      Some (if 2.99 <? z_score then
              ("Safe Zone", green, "Strong financial position with low bankruptcy risk.")
            else if 1.81 <? z_score then
              ("Grey Zone", amber, "Some financial concerns present. Monitor closely.")
            else
              ("Distress Zone", red,
               "High risk of financial distress. Immediate action recommended."))
  | None =>
      match prob_default with
      | Some prob_default =>
          Some (if prob_default <? 0.3 then
                  ("Low Risk", green,
                   "Strong financial position with low default probability.")
                else if prob_default <? 0.7 then
                  ("Moderate Risk", amber,
                   "Some default risk present. Careful monitoring advised.")
                else
                  ("High Risk", red,
                   "Significant default risk. Immediate attention required."))
      | None => None
      end
  end.

(** How alarming a panel is, by its colour. *)
Definition severity (color : string) : nat :=
  if bool_decide (color = green) then 0
  else if bool_decide (color = amber) then 1
  else 2.

Definition status_of (r : option (string * string * string)) : string :=
  match r with Some (status, _, _) => status | None => "" end.

Definition color_of (r : option (string * string * string)) : string :=
  match r with Some (_, color, _) => color | None => "" end.
End Display.

(** * The notes of [calculate_merton_default] *)
Module MertonNotes.
Definition six_months : string := "Using 6-month price history for volatility".
Definition three_months : string := "Using 3-month price history for volatility".
Definition capped : string := "Capped probability at 99%".
Definition floored : string := "Floored probability at 1%".

(** The one-year history is too short and the six-month one is not. *)
Definition window_6mo (company : Company) : Prop :=
  ∃ y1 m6,
    history company "1y" = Ok y1 ∧ h_len y1 < 30
    ∧ history company "6mo" = Ok m6 ∧ 30 ≤ h_len m6.

(** The one-year and the six-month histories are too short and the
    three-month one is not. *)
Definition window_3mo (company : Company) : Prop :=
  ∃ y1 m6 m3,
    history company "1y" = Ok y1 ∧ h_len y1 < 30
    ∧ history company "6mo" = Ok m6 ∧ h_len m6 < 30
    ∧ history company "3mo" = Ok m3 ∧ 30 ≤ h_len m3.

(** While the body runs: a window note is there only if that window was
    used, and the probability has not been clamped yet. *)
Definition truthful_so_far (company : Company) (n : notes) : Prop :=
  (six_months ∈ substituted_values n → window_6mo company)
  ∧ (three_months ∈ substituted_values n → window_3mo company)
  ∧ (capped ∉ substituted_values n)
  ∧ (floored ∉ substituted_values n).

(** What the notes returned with a result say is so. *)
Definition truthful (company : Company) (r : merton_result) (n : notes) : Prop :=
  (six_months ∈ substituted_values n → window_6mo company)
  ∧ (three_months ∈ substituted_values n → window_3mo company)
  ∧ (capped ∈ substituted_values n → r.1 = Some 0.99%float)
  ∧ (floored ∈ substituted_values n → r.1 = Some 0.01%float).
End MertonNotes.

Section Logic.
Context {R : Type} (I : notes → Prop) (Qr : R → notes → Prop).

Lemma hoare_ret {A} (a : A) (Q : A → Prop) : Q a → hoare I Qr (ret a) Q.
Proof. intros H n Hn. simpl. auto. Qed.

Lemma hoare_lift {A} (c : result A) (Q : A → Prop) :
  (∀ a, c = Ok a → Q a) → hoare I Qr (lift c) Q.
Proof. intros H n Hn. unfold lift. destruct c; simpl; auto. Qed.

Lemma hoare_return {A} (r : R) (Q : A → Prop) :
  (∀ n, I n → Qr r n) → hoare I Qr (return_ r) Q.
Proof. intros H n Hn. simpl. auto. Qed.

Lemma hoare_problem (s : string) (Q : unit → Prop) :
  (∀ n, I n → I (add_problem n s)) → Q () → hoare I Qr (problem s) Q.
Proof. intros HI H n Hn. simpl. split; [ by apply HI | done ]. Qed.

Lemma hoare_substituted (s : string) (Q : unit → Prop) :
  (∀ n, I n → I (add_substituted n s)) → Q () → hoare I Qr (substituted s) Q.
Proof. intros HI H n Hn. simpl. split; [ by apply HI | done ]. Qed.

Lemma hoare_problem_return {A} (s : string) (r : R) (Q : A → Prop) :
  (∀ n, I n → Qr r (add_problem n s)) → hoare I Qr (problem s;; return_ r) Q.
Proof. intros H n Hn. simpl. by apply H. Qed.

Lemma hoare_bind {A B} (c : M R A) (k : A → M R B) (P : A → Prop) (Q : B → Prop) :
  hoare I Qr c P → (∀ a, P a → hoare I Qr (k a) Q) → hoare I Qr (c ≫= k) Q.
Proof.
  intros Hc Hk n Hn. specialize (Hc n Hn). unfold mbind, M_bind.
  destruct (c n) as [[a|r|e] n']; auto. destruct Hc as [Hn' Ha]. by apply Hk.
Qed.

Lemma hoare_if {A} (b : bool) (c1 c2 : M R A) (Q : A → Prop) :
  (b = true → hoare I Qr c1 Q) → (b = false → hoare I Qr c2 Q) →
  hoare I Qr (if b then c1 else c2) Q.
Proof. destruct b; auto. Qed.

Lemma hoare_try {A} (body : M R A) (handler : string → M R A) (Q : A → Prop) :
  hoare I Qr body Q → (∀ e, hoare I Qr (handler e) Q) →
  hoare I Qr (try_except body handler) Q.
Proof.
  intros Hb Hh n Hn. specialize (Hb n Hn). unfold try_except.
  destruct (body n) as [[a|r|e] n']; auto. by apply Hh.
Qed.
End Logic.

Lemma accounted_after_problem {R} (absent : R → Prop) (r : R) (n : notes) (s : string) :
  accounted absent r (add_problem n s).
Proof. intros _. simpl. by destruct (problematic_values n). Qed.

(** One step of a proof of [hoare I Qr c Q]; the values passed from one
    statement to the next are given the postcondition [True], and a
    side condition is left to the caller. *)
Ltac hoare_step :=
  lazymatch goal with
  | |- hoare _ _ (problem _;; return_ _) _ => apply hoare_problem_return
  | |- hoare _ _ (lift ?c ≫= _) _ =>
      eapply hoare_bind with (P := λ a, c = Ok a);
      [ apply hoare_lift; intros ? ?; assumption | intros ? ? ]
  | |- hoare _ _ (_ ≫= _) _ => eapply hoare_bind with (P := λ _, True); [ | intros ? _ ]
  | |- hoare _ _ (if ?b then _ else _) _ => apply hoare_if; intros ?
  | |- hoare _ _ (try_except _ _) _ => apply hoare_try; [ | intros ? ]
  | |- hoare _ _ (ret _) _ => apply hoare_ret
  | |- hoare _ _ (lift _) _ => apply hoare_lift; intros ? ?
  | |- hoare _ _ (problem _) _ => apply hoare_problem
  | |- hoare _ _ (substituted _) _ => apply hoare_substituted
  | |- hoare _ _ (return_ _) _ => apply hoare_return
  | |- hoare _ _ (match ?p with _ => _ end) _ => destruct p
  end.

(** A statement [a = lift c], keeping the fact [H : c = Ok a]. *)
Ltac hoare_lift_as a H :=
  lazymatch goal with
  | |- hoare _ _ (lift ?c ≫= _) _ =>
      eapply hoare_bind with (P := λ x, c = Ok x);
      [ apply hoare_lift; intros ? ?; assumption | intros a H ]
  end.

Ltac hoare_auto tac :=
  repeat (hoare_step; cbv beta iota zeta; try exact I; try (intros; exact I); try tac).

Ltac trivial_side := try (intros; exact I).

Ltac acc_side :=
  try (intros; apply accounted_after_problem).

Ltac acc_auto := hoare_auto acc_side.

Lemma arith_num name op a b v : V.arith name op a b = Ok v → is_num v.
Proof. destruct a, b; simpl; intros; by simplify_eq. Qed.

(** ** An absent score comes with a reason *)

(** Running a body that never falls off its end, under the catch-all
    handler of a calculator. *)
Lemma run_guarded_then {R} (absent : R → Prop) (body : M R unit)
    (note : string → string) (r0 : R) :
  hoare anything (accounted absent) body (λ _, False) →
  match run (try_except body (λ e, problem (note e));; return_ r0) with
  | Ok (r, p, _) => absent r → p ≠ []
  | Raise _ => False
  end.
Proof.
  intros H. specialize (H no_notes I). unfold run, try_except, mbind, M_bind.
  destruct (body no_notes) as [[a|r|e] n']; simpl; try done. by destruct H.
  intros _. by destruct (problematic_values n').
Qed.

Lemma run_guarded {R} (absent : R → Prop) (body : M R R)
    (note : string → string) (r0 : R) :
  hoare anything (accounted absent) body (λ _, False) →
  match run (try_except body (λ e, problem (note e);; return_ r0)) with
  | Ok (r, p, _) => absent r → p ≠ []
  | Raise _ => False
  end.
Proof.
  intros H. specialize (H no_notes I). unfold run, try_except.
  destruct (body no_notes) as [[a|r|e] n']; simpl; try done. by destruct H.
  intros _. by destruct (problematic_values n').
Qed.

Lemma calculate_z_score_accounted yf ticker :
  match calculate_z_score yf ticker with
  | Ok (r, p, _) => r = None → p ≠ []
  | Raise _ => False
  end.
Proof.
  unfold calculate_z_score.
  apply (run_guarded_then z_absent).
  do 4 (eapply hoare_bind with (P := λ _, True); [ by acc_auto | intros ? _ ]).
  cbv zeta.
  eapply hoare_bind with (P := λ ta, is_problematic ta = false).
  - apply hoare_if; intros Hp; [ | by apply hoare_ret ].
    eapply hoare_bind with (P := λ _, True); [ by acc_auto | intros ta _ ].
    apply hoare_if; intros Hta; [ | apply hoare_problem_return; by acc_side ].
    eapply hoare_bind with (P := λ _, True); [ by acc_auto | intros _ _ ].
    apply hoare_ret. by apply negb_true_iff.
  - intros ta Hta. acc_auto; rewrite ?Hta in *; try done.
Qed.

Lemma calculate_ohlson_score_accounted lib company :
  match calculate_ohlson_score lib company with
  | Ok (r, p, _) => r.1 = None ∨ r.2 = None → p ≠ []
  | Raise _ => False
  end.
Proof.
  unfold calculate_ohlson_score, ohlson_ratios, ohlson_score.
  apply (run_guarded ohlson_absent).
  acc_auto; try done.
  all: intros ? _ [?|?]; done.
Qed.

Lemma iterate_accounted lib E F sE fuel i V_A sigma_A :
  hoare anything (accounted merton_absent) (iterate lib E F sE fuel i V_A sigma_A) (λ _, True).
Proof.
  revert i V_A sigma_A. induction fuel as [|fuel IH]; intros i V_A sigma_A; simpl.
  - by apply hoare_ret.
  - acc_auto. apply IH.
Qed.

Lemma calculate_merton_default_accounted lib company :
  match calculate_merton_default lib company with
  | Ok (r, p, _) => r.1 = None → p ≠ []
  | Raise _ => False
  end.
Proof.
  unfold calculate_merton_default.
  apply (run_guarded merton_absent).
  eapply hoare_bind with (P := λ _, True);
    [ unfold fetch_stock_data; by acc_auto | intros stock_data _ ].
  eapply hoare_bind with (P := λ _, True);
    [ unfold equity_volatility; by acc_auto | intros equity_vol _ ].
  do 3 (eapply hoare_bind with (P := λ _, True); [ by acc_auto | intros ? _ ]).
  eapply hoare_bind with (P := λ _, True);
    [ unfold resolve_market_cap; by acc_auto | intros market_cap _ ].
  eapply hoare_bind with (P := λ _, True);
    [ unfold resolve_total_liabilities; by acc_auto | intros total_liabilities _ ].
  unfold merton_solve, implied_assets, final_probability.
  eapply hoare_bind with (P := λ _, True);
    [ apply iterate_accounted | intros [[V_A sigma_A] c] _ ].
  acc_auto; done.
Qed.

(** C8. For each of the three calculators and every input: the call
    returns (no exception escapes it), and whenever the score it returns
    is absent ([None]) the problematic-values list it returns is not
    empty. *)
Theorem absent_score_has_reason (lib : numlib) (yf_Ticker : string → result Company)
    (ticker : string) (company : Company) :
  match calculate_z_score yf_Ticker ticker with
  | Ok (None, p, _) => p ≠ []
  | Ok (Some _, _, _) => True
  | Raise _ => False
  end
  ∧ match calculate_ohlson_score lib company with
    | Ok ((Some _, Some _), _, _) => True
    | Ok (_, p, _) => p ≠ []
    | Raise _ => False
    end
  ∧ match calculate_merton_default lib company with
    | Ok ((None, _), p, _) => p ≠ []
    | Ok ((Some _, _), _, _) => True
    | Raise _ => False
    end.
Proof.
  split; [ | split ].
  - pose proof (calculate_z_score_accounted yf_Ticker ticker) as H.
    destruct (calculate_z_score yf_Ticker ticker) as [[[[z|] p] s]|e]; auto.
  - pose proof (calculate_ohlson_score_accounted lib company) as H.
    destruct (calculate_ohlson_score lib company) as [[[[[o|] [q|]] p] s]|e];
      simpl in H; auto.
  - pose proof (calculate_merton_default_accounted lib company) as H.
    destruct (calculate_merton_default lib company) as [[[[[q|] d] p] s]|e]; auto.
Qed.

(** ** [is_problematic] and [safe_get] *)

Lemma is_problematic_np (x : float) :
  is_problematic (VNp x) = true ↔ problematic_float x.
Proof.
  unfold is_problematic, problematic_float.
  rewrite !orb_true_iff. tauto.
Qed.

Lemma is_problematic_sentinel : is_problematic sentinel.1 = true.
Proof. reflexivity. Qed.

Lemma cell_out_of_range df key index :
  ¬ (index < df_ncols df) → cell df key index = None.
Proof.
  intros H. unfold cell. destruct (df_rows df !! key); simpl; [ | done ].
  by case_bool_decide.
Qed.

Lemma find_out_of_range df keys index :
  ¬ (index < df_ncols df) → List.find (qualifies df index) keys = None.
Proof.
  intros H. induction keys as [|key keys IH]; simpl; [ done | ].
  unfold qualifies at 1. by rewrite cell_out_of_range.
Qed.

(** Past the last column the scan raises at the first name the frame
    has, or finds none. *)
Lemma safe_get_scan_out_of_range df keys index :
  ¬ (index < df_ncols df) →
  match safe_get_scan df keys index with
  | Ok r => r = sentinel
  | Raise _ => True
  end.
Proof.
  intros H. induction keys as [|key keys IH]; simpl; [ done | ].
  unfold in_index, loc_iloc.
  destruct (df_rows df !! key) as [row|] eqn:Hrow.
  - rewrite bool_decide_eq_true_2 by eauto. by case_bool_decide.
  - case_bool_decide as Hin; [ by destruct Hin | done ].
Qed.

Lemma scan_step_present df key keys index row :
  df_rows df !! key = Some row → index < df_ncols df →
  let x := default nan (row !! index) in
  cell df key index = Some x
  ∧ safe_get_scan df (key :: keys) index =
    if is_problematic (VNp x) then safe_get_scan df keys index
    else Ok (VNp x, Some key).
Proof.
  intros Hrow H x. split.
  - unfold cell. rewrite Hrow. cbn [mbind option_bind]. by case_bool_decide.
  - cbn [safe_get_scan]. unfold in_index, loc_iloc. rewrite Hrow.
    rewrite bool_decide_eq_true_2 by eauto. case_bool_decide; [ | done ].
    cbn [mbind result_bind]. fold x. by destruct (is_problematic (VNp x)).
Qed.

Lemma scan_step_absent df key keys index :
  df_rows df !! key = None →
  cell df key index = None
  ∧ safe_get_scan df (key :: keys) index = safe_get_scan df keys index.
Proof.
  intros Hrow. split.
  - unfold cell. by rewrite Hrow.
  - cbn [safe_get_scan]. unfold in_index. rewrite Hrow.
    case_bool_decide as Hin; [ by destruct Hin | done ].
Qed.

Lemma safe_get_scan_in_range df keys index :
  index < df_ncols df →
  safe_get_scan df keys index =
  Ok (match first_qualifying df keys index with
      | Some (x, key) => (VNp x, Some key)
      | None => sentinel
      end).
Proof.
  intros H. unfold first_qualifying.
  induction keys as [|key keys IH]; [ done | ].
  cbn [List.find]. unfold qualifies at 1.
  destruct (df_rows df !! key) as [row|] eqn:Hrow.
  - destruct (scan_step_present df key keys index row Hrow H) as [Hcell ->].
    rewrite Hcell.
    destruct (is_problematic (VNp (default nan (row !! index)))); cbn [negb].
    + exact IH.
    + cbn [mbind option_bind]. by rewrite Hcell.
  - destruct (scan_step_absent df key keys index Hrow) as [-> ->]. exact IH.
Qed.

Lemma safe_get_first_qualifying df keys index :
  safe_get df keys index =
  match first_qualifying df keys index with
  | Some (x, key) => (VNp x, Some key)
  | None => sentinel
  end.
Proof.
  unfold safe_get. destruct (decide (index < df_ncols df)) as [H|H].
  - by rewrite safe_get_scan_in_range.
  - pose proof (safe_get_scan_out_of_range df keys index H) as Hs.
    unfold first_qualifying. rewrite find_out_of_range by done. simpl.
    destruct (safe_get_scan df keys index); [ by subst | done ].
Qed.

Lemma first_qualifying_Some df keys index x key :
  first_qualifying df keys index = Some (x, key) →
  cell df key index = Some x ∧ is_problematic (VNp x) = false
  ∧ ∃ before after, keys = before ++ key :: after
      ∧ Forall (λ k, qualifies df index k = false) before.
Proof.
  unfold first_qualifying. intros H.
  destruct (List.find (qualifies df index) keys) as [k|] eqn:Hfind; simpl in H; [ | done ].
  destruct (cell df k index) as [y|] eqn:Hcell; simpl in H; [ | done ].
  simplify_eq. split; [ done | ].
  assert (qualifies df index key = true) as Hq by (by apply find_some in Hfind as [_ ?]).
  split.
  { unfold qualifies in Hq. rewrite Hcell in Hq. by apply negb_true_iff. }
  clear Hcell Hq. induction keys as [|k keys IH]; simpl in Hfind; [ done | ].
  destruct (qualifies df index k) eqn:Hk.
  - simplify_eq. by exists [], keys.
  - destruct (IH Hfind) as (before & after & -> & Hall).
    exists (k :: before), after. split; [ done | by constructor ].
Qed.

(** C7. For every frame, candidate list and period, [safe_get] returns the
    value, paired with the name used, of the first candidate in list
    order that the frame has and whose value is not problematic, and the
    sentinel when there is none; a value is problematic exactly when it is
    NaN (missing), infinite, zero, or below 1e-6 in magnitude. *)
Theorem safe_get_returns_first_usable (df : DataFrame) (keys : list string) (index : nat) :
  match safe_get df keys index with
  | (v, Some key) =>
      ∃ x before after,
        v = VNp x ∧ cell df key index = Some x ∧ ¬ problematic_float x
        ∧ keys = before ++ key :: after
        ∧ Forall (λ k, ∀ y, cell df k index = Some y → problematic_float y) before
  | (v, None) =>
      v = VPy 0
      ∧ Forall (λ k, ∀ y, cell df k index = Some y → problematic_float y) keys
  end
  ∧ ∀ x, is_problematic (VNp x) = true ↔ problematic_float x.
Proof.
  split; [ | apply is_problematic_np ].
  rewrite safe_get_first_qualifying.
  destruct (first_qualifying df keys index) as [[x key]|] eqn:Hfq.
  - apply first_qualifying_Some in Hfq as (Hcell & Hp & before & after & -> & Hall).
    exists x, before, after. repeat split; try done.
    + rewrite <- is_problematic_np. by rewrite Hp.
    + eapply Forall_impl; [ exact Hall | ]. intros k Hk y Hy. simpl in Hk.
      unfold qualifies in Hk. rewrite Hy in Hk. apply is_problematic_np.
      by apply negb_false_iff.
  - split; [ done | ]. unfold first_qualifying in Hfq.
    destruct (List.find (qualifies df index) keys) as [k|] eqn:Hfind.
    + exfalso. apply find_some in Hfind as [_ Hq]. unfold qualifies in Hq.
      simpl in Hfq. by destruct (cell df k index).
    + apply Forall_forall. intros k Hk y Hy.
      pose proof (find_none _ _ Hfind k) as Hn.
      apply is_problematic_np. unfold qualifies in Hn. rewrite Hy in Hn.
      apply negb_false_iff, Hn. by apply list_elem_of_In.
Qed.

(** ** The Merton solver *)

Section MertonLoop.
Variable lib : numlib.
Variables E F sigma_E : float.

Local Abbreviation converged := (MertonSpec.converged (np_log lib) (norm_cdf lib) E F sigma_E).
Local Abbreviation damp := (MertonSpec.damp (np_log lib) (norm_cdf lib) E F sigma_E).
Local Abbreviation after := (MertonSpec.after (np_log lib) (norm_cdf lib) E F sigma_E).
Local Abbreviation outcome_of := (MertonSpec.outcome_of (np_log lib) (norm_cdf lib) E F sigma_E).

(** The body of the loop computes the specified update and test. *)
Lemma iteration_body_spec (s : MertonSpec.state) :
  iteration_body lib E F sigma_E s.1 s.2 =
  Ok (if converged s then Converged else Continue (damp s).1 (damp s).2).
Proof.
  unfold iteration_body, MertonSpec.converged, MertonSpec.damp,
    MertonSpec.V_A_new, MertonSpec.sigma_A_new, MertonSpec.d1.
  change T with 1%float. change rf_rate with 0.05%float.
  change convergence_threshold with 1e-4%float.
  by destruct (_ && _).
Qed.

Lemma after_S (k : nat) (s : MertonSpec.state) : after (S k) s = after k (damp s).
Proof. unfold MertonSpec.after. by rewrite Nat.iter_succ_r. Qed.

(** The loop: it leaves the notes alone and hands on the state the
    specified iteration stops in. *)
Lemma iterate_spec (fuel i : nat) (s : MertonSpec.state) (n : notes) :
  ∃ r, iterate lib E F sigma_E fuel i s.1 s.2 n = (Normal r, n) ∧ outcome_of fuel s r.
Proof.
  revert i s. induction fuel as [|fuel IH]; intros i s.
  - exists (s.1, s.2, false). split; [ done | ]. right. split.
    + intros j Hj. lia.
    + by destruct s.
  - cbn [iterate]. unfold try_except, mbind, M_bind, lift.
    rewrite iteration_body_spec. cbn [ret].
    destruct (converged s) eqn:Hc.
    + exists (s.1, s.2, true). split; [ done | ]. left. exists 0%nat.
      split; [ | by destruct s ]. split; [ lia | ]. split; [ done | ].
      intros j Hj. lia.
    + destruct (IH (S i) (damp s)) as (r & Hr & Hout).
      exists r. split; [ exact Hr | ].
      destruct Hout as [(k & (Hk & Hck & Hbefore) & ->)|[Hex ->]].
      * left. exists (S k). rewrite after_S. split; [ | done ].
        split; [ lia | ]. split; [ by rewrite after_S | ].
        intros [|j] Hj; [ done | ]. rewrite after_S. apply Hbefore. lia.
      * right. rewrite after_S. split; [ | done ].
        intros [|j] Hj; [ done | ]. rewrite after_S. apply Hex. lia.
Qed.
End MertonLoop.

Lemma implied_assets_spec (lib : numlib) (E F sigma_E : float) (n : notes) :
  ∃ r : float * float * bool,
    implied_assets lib E F sigma_E n = (Normal r, n)
    ∧ MertonSpec.outcome_of (np_log lib) (norm_cdf lib) E F sigma_E 100
        (MertonSpec.initial E F sigma_E) r.
Proof.
  unfold implied_assets. change max_iterations with 100%nat.
  apply (iterate_spec lib E F sigma_E 100 0 (MertonSpec.initial E F sigma_E) n).
Qed.

(** C1. For every E, F and sigma_E (positive or not), the solver starts
    from V_A = E + F and sigma_A = sigma_E * E / V_A and runs the specified
    iteration: with d1, V_A_new and sigma_A_new as specified, it stops at
    the first of at most 100 iterations at which both |V_A_new - V_A| and
    |sigma_A_new - sigma_A| are below 1e-4, keeping the state it tested,
    and otherwise replaces the state by the dampened one; the notes are
    left as they were. *)
Theorem merton_runs_specified_iteration (lib : numlib) (E F sigma_E : float) (n : notes) :
  ∃ r : float * float * bool,
    implied_assets lib E F sigma_E n = (Normal r, n)
    ∧ MertonSpec.outcome_of (np_log lib) (norm_cdf lib) E F sigma_E 100
        (MertonSpec.initial E F sigma_E) r.
Proof.
  unfold implied_assets. change max_iterations with 100%nat.
  exact (iterate_spec lib E F sigma_E 100 0 (MertonSpec.initial E F sigma_E) n).
Qed.

(** The solver always returns a probability and a distance: the clamped
    [Phi(-DD)] and [DD] of the state the iteration stopped in. *)
Lemma merton_solve_spec (lib : numlib) (E F sigma_E : float) (n : notes) :
  ∃ V_A sigma_A converged,
    implied_assets lib E F sigma_E n = (Normal (V_A, sigma_A, converged), n)
    ∧ let DD := MertonSpec.DD (np_log lib) F (V_A, sigma_A) in
      let p := norm_cdf lib (- DD) in
      merton_solve lib E F sigma_E n =
      (Return (Some (MertonSpec.clamp p), Some DD), solver_notes n converged p).
Proof.
  destruct (implied_assets_spec lib E F sigma_E n)
    as ([[V_A sigma_A] c] & Hrun & _).
  exists V_A, sigma_A, c. split; [ exact Hrun | ].
  unfold merton_solve, mbind, M_bind. rewrite Hrun.
  unfold final_probability, try_except, solver_notes, MertonSpec.clamp, MertonSpec.DD.
  change T with 1%float. change rf_rate with 0.05%float. cbn [fst snd].
  destruct c; cbn [negb ret substituted mbind M_bind return_];
    destruct (0.99 <? _)%float; cbn [mbind M_bind substituted ret return_]; try done;
    destruct (_ <? 0.01)%float; done.
Qed.

(** *** NaN, once in the state, stays *)

Lemma iterate_continue lib E F sE fuel i V_A sigma_A V_A' sigma_A' n :
  iteration_body lib E F sE V_A sigma_A = Ok (Continue V_A' sigma_A') →
  iterate lib E F sE (S fuel) i V_A sigma_A n = iterate lib E F sE fuel (S i) V_A' sigma_A' n.
Proof.
  intros H. cbn [iterate]. unfold try_except, mbind, M_bind, lift. by rewrite H.
Qed.

Lemma iterate_nan lib (E F sE : float) :
  nan_propagating lib →
  (nan / F)%float = nan → (E / nan)%float = nan → (sE * E / (nan * nan))%float = nan →
  ∀ fuel i n, iterate lib E F sE fuel i nan nan n = (Normal (nan, nan, false), n).
Proof.
  intros (_ & Hlog & Hcdf) HF HE HsE. induction fuel as [|fuel IH]; intros i n; [ done | ].
  rewrite (iterate_continue lib E F sE fuel i nan nan nan nan); [ apply IH | ].
  unfold iteration_body. rewrite HF, Hlog.
  change ((nan + (rf_rate + 0.5 * (nan * nan)) * T) / (nan * sqrt T))%float with nan.
  by rewrite Hcdf, HE, HsE.
Qed.

Lemma reflib_nan_propagating : nan_propagating reflib.
Proof.
  split; [ | by split ].
  intros x Hx. cbn [np_log reflib]. unfold Ref.ref_log. rewrite Hx.
  by destruct (is_nan x).
Qed.

(** For every implementation of the libraries that propagates NaN as
    numpy and scipy do: with equity -110 (a negative book value with its
    premium) and debt 50 the first logarithm is taken of -1.2, nothing is
    raised, and the solver returns NaN for the distance and for the
    probability after a hundred iterations. *)
Lemma merton_nan_from_negative_logarithm lib :
  nan_propagating lib →
  merton_solve lib (-110) 50 0.3 no_notes =
    (Return (Some nan, Some nan),
     {| problematic_values := [];
        substituted_values := ["Using last iteration values (no convergence)"] |}).
Proof.
  intros Hlib. pose proof Hlib as (Hneg & Hlog & Hcdf).
  assert (implied_assets lib (-110) 50 0.3 no_notes = (Normal (nan, nan, false), no_notes))
    as Hrun.
  { unfold implied_assets. change max_iterations with (S 99).
    rewrite (iterate_continue lib _ _ _ 99 0 _ _ nan nan).
    - by apply iterate_nan.
    - unfold iteration_body. rewrite (Hneg ((-110 + 50) / 50)%float eq_refl).
      repeat match goal with
             | |- context [norm_cdf lib ?x] => progress change x with nan
             end.
      by rewrite Hcdf. }
  unfold merton_solve, mbind, M_bind. rewrite Hrun.
  unfold final_probability, try_except, mbind, M_bind.
  change (nan / 50)%float with nan. rewrite Hlog.
  match goal with
  | |- context [norm_cdf lib ?x] => change x with nan
  end.
  by rewrite Hcdf.
Qed.

(** *** A leveraged company: one billion of equity, a hundred of debt *)

(** C2. Equity of 1e9 against debt of 1e11 at 30% volatility.  After one
    dampened update the state is (5.1e10, 0.00297); there d1 is about -210,
    [norm.cdf(d1)] is 0 and [V_A_new = E / 0] is inf: the arithmetic has
    failed.  Nothing is raised, so the loop neither stops nor records a
    convergence error: it runs its hundred iterations, the state becomes
    (inf, inf) and then (NaN, NaN), and the distance and the probability
    are computed from NaN, not from the last valid state.  The same
    happens when the logarithm is given a negative argument (equity -110,
    debt 50; lemma [merton_nan_from_negative_logarithm] shows it for
    every NaN-propagating implementation of the libraries). *)
Theorem merton_failure_not_aborted :
  MertonSpec.after (np_log reflib) (norm_cdf reflib) 1e9 1e11 0.3 1
    (MertonSpec.initial 1e9 1e11 0.3) = (51000000000, 0.0029702970297029703)%float
  ∧ norm_cdf reflib (MertonSpec.d1 (np_log reflib) 1e11
                       (51000000000, 0.0029702970297029703)%float) = 0%float
  ∧ MertonSpec.V_A_new (np_log reflib) (norm_cdf reflib) 1e9 1e11
      (51000000000, 0.0029702970297029703)%float = infinity
  ∧ implied_assets reflib 1e9 1e11 0.3 no_notes = (Normal (nan, nan, false), no_notes)
  ∧ merton_solve reflib 1e9 1e11 0.3 no_notes =
    (Return (Some nan, Some nan),
     {| problematic_values := [];
        substituted_values := ["Using last iteration values (no convergence)"] |})
  ∧ np_log reflib ((-110 + 50) / 50) = nan
  ∧ merton_solve reflib (-110) 50 0.3 no_notes =
    (Return (Some nan, Some nan),
     {| problematic_values := [];
        substituted_values := ["Using last iteration values (no convergence)"] |}).
Proof. vm_compute. repeat split. Qed.

(** C3. For the bank of the examples (market capitalisation 1e9, total
    liabilities 1e11, a share moving between 100 and 102), and for the
    bare inputs E = 1e9, F = 1e11, sigma_E = 0.3, the calculator returns
    NaN as the probability and NaN as the distance to default: the result
    is present, but the probability is not in [0.01, 0.99], the distance
    is not finite, and no note says so. *)
Theorem merton_returns_nan_for_bank :
  calculate_merton_default reflib Examples.bank =
    Ok ((Some nan, Some nan), [], ["Using last iteration values (no convergence)"])
  ∧ merton_probability reflib 1e9 1e11 0.3 = Some nan
  ∧ merton_distance reflib 1e9 1e11 0.3 = Some nan
  ∧ in_range nan = false
  ∧ F.isfinite nan = false.
Proof. vm_compute. repeat split. Qed.

(** *** Monotonicity in the equity value *)

(** C4. With debt 2e6 and volatility 0.3, the probabilities returned for
    the equity values 7e5 < 8e5 < 9e5 are about 0.493, 0.519 and 0.646:
    none of them is clamped, none is NaN, and they rise with the equity
    value.  The same happens through the whole calculator: two companies
    with the same price history and the same liabilities of 2e6 get about
    0.52 for a market capitalisation of 6e5 and about 0.80 for 7e5.  In
    these runs the loop does not meet its tolerance in 100 iterations.
    The probability is therefore not strictly decreasing in E. *)
Theorem merton_probability_rises_with_equity :
  (∃ p1 p2 p3,
      merton_probability reflib 7e5 2e6 0.3 = Some p1
      ∧ merton_probability reflib 8e5 2e6 0.3 = Some p2
      ∧ merton_probability reflib 9e5 2e6 0.3 = Some p3
      ∧ (0.49 <? p1)%float = true ∧ (p1 <? 0.50)%float = true
      ∧ (0.51 <? p2)%float = true ∧ (p2 <? 0.52)%float = true
      ∧ (0.64 <? p3)%float = true ∧ (p3 <? 0.65)%float = true)
  ∧ (∃ q1 q2 d1 d2,
        calculate_merton_default reflib (Examples.geared 6e5) =
          Ok ((Some q1, Some d1), [], ["Using last iteration values (no convergence)"])
        ∧ calculate_merton_default reflib (Examples.geared 7e5) =
            Ok ((Some q2, Some d2), [], ["Using last iteration values (no convergence)"])
        ∧ (q1 <? 0.55)%float = true ∧ (0.75 <? q2)%float = true
        ∧ (q2 <? 0.85)%float = true)
  ∧ ¬ strictly_decreasing_in_E reflib.
Proof.
  split; [ | split ].
  - exists 0.49263207730665237%float, 0.51875563333415542%float, 0.64609629804126067%float.
    by vm_compute.
  - exists 0.51828755863969944%float, 0.7999905044678266%float,
      (-0.045856177470117852)%float, (-0.84158731682939103)%float.
    by vm_compute.
  - intros H.
    specialize (H 7e5 8e5 2e6 0.3 0.49263207730665237 0.51875563333415542)%float.
    assert ((0.51875563333415542 <? 0.49263207730665237)%float = true) as Habs;
      [ | by vm_compute in Habs ].
    apply H; by vm_compute.
Qed.

(** *** Price history and volatility *)

(** C6. When the 1-year, the 6-month and the 3-month price histories each
    hold fewer than 30 observations, the calculator returns (no exception
    escapes it) an absent probability and an absent distance, and its
    problematic list is the single note "Insufficient stock price
    history". *)
Theorem insufficient_history_is_absent (lib : numlib) (company : Company)
    (y1 m6 m3 : History) :
  history company "1y" = Ok y1 → h_len y1 < 30 →
  history company "6mo" = Ok m6 → h_len m6 < 30 →
  history company "3mo" = Ok m3 → h_len m3 < 30 →
  calculate_merton_default lib company =
  Ok ((None, None), ["Insufficient stock price history"], []).
Proof.
  intros H1 L1 H2 L2 H3 L3.
  unfold calculate_merton_default, run, try_except at 1, mbind at 1, M_bind.
  unfold fetch_stock_data, try_except, mbind, M_bind.
  rewrite H1. cbn [lift]. rewrite bool_decide_eq_true_2 by done.
  rewrite H2. cbn [lift]. rewrite bool_decide_eq_true_2 by done.
  rewrite H3. cbn [lift]. rewrite bool_decide_eq_true_2 by done.
  reflexivity.
Qed.

Lemma insufficient_history_is_absent_witness :
  calculate_merton_default reflib Examples.newly_listed =
  Ok ((None, None), ["Insufficient stock price history"], []).
Proof.
  apply (insufficient_history_is_absent reflib Examples.newly_listed
           Examples.short_prices Examples.short_prices Examples.short_prices);
    first [ reflexivity | vm_compute; lia ].
Defined.

(** The range is reached when the frame has an adjusted-close column:
    with close and adjusted-close log-returns both unusable, the
    volatility is std(log(High/Low)) * sqrt(252), with its note, and the
    default 0.3 when that number is itself zero or NaN. *)
Lemma equity_volatility_from_range (lib : numlib) (stock_data : History)
    (close adj high low : list float) (n : notes) :
  column stock_data "Close" = Ok close →
  column stock_data "Adj Close" = Ok adj →
  column stock_data "High" = Ok high →
  column stock_data "Low" = Ok low →
  unusable (series_std lib (log_returns lib close)) = true →
  unusable (series_std lib (log_returns lib adj)) = true →
  equity_volatility lib stock_data n =
  let range_vol := (series_std lib (log_range lib high low) * sqrt_252)%float in
  let n1 := add_substituted n "Using high-low range for volatility calculation" in
  if F.isnan range_vol || (range_vol =? 0)%float
  then (Normal 0.3%float, add_substituted n1 "Using market average volatility (0.3)")
  else (Normal range_vol, n1).
Proof.
  intros Hclose Hadj Hhigh Hlow Hc Ha.
  unfold equity_volatility, try_except, mbind, M_bind.
  rewrite Hclose. cbn [lift]. rewrite Hc.
  rewrite Hadj. cbn [lift]. rewrite Ha.
  rewrite Hhigh. cbn [lift]. rewrite Hlow. cbn [lift substituted ret].
  cbv zeta. by destruct (_ || _).
Qed.

(** C5. A price frame of at least 30 rows with the columns Close, High
    and Low and no 'Adj Close' column, whose close log-returns have a
    zero or NaN standard deviation and whose high-low range gives a
    usable volatility: the lookup of the adjusted close raises
    [KeyError] before the range is tried, and the volatility step ends
    the calculation with an absent result and the problematic note
    "Error calculating volatility: 'Adj Close'".  The fallback to the
    range that the claim asks for is not taken, whatever numpy computes
    for the logarithm and the standard deviation. *)
Theorem range_fallback_not_reached (lib : numlib) (stock_data : History)
    (close high low : list float) (n : notes) :
  30 ≤ h_len stock_data →
  column stock_data "Close" = Ok close →
  column stock_data "High" = Ok high →
  column stock_data "Low" = Ok low →
  h_cols stock_data !! "Adj Close" = None →
  unusable (series_std lib (log_returns lib close)) = true →
  unusable (series_std lib (log_range lib high low) * sqrt_252)%float = false →
  equity_volatility lib stock_data n =
    (Return (None, None), add_problem n "Error calculating volatility: 'Adj Close'")
  ∧ ¬ falls_back_to_range lib.
Proof.
  intros Hlen Hclose Hhigh Hlow Hadj Hflat Hrange.
  assert (equity_volatility lib stock_data n =
            (Return (None, None),
             add_problem n "Error calculating volatility: 'Adj Close'")) as Hfails.
  { assert (column stock_data "Adj Close" = Raise "'Adj Close'") as Hraise.
    { unfold column. by rewrite Hadj. }
    unfold equity_volatility, try_except, mbind, M_bind.
    rewrite Hclose. cbn [lift]. by rewrite Hflat, Hraise. }
  split; [ exact Hfails | ].
  intros Hclaim.
  specialize (Hclaim stock_data close high low n Hlen Hclose Hhigh Hlow Hflat Hrange).
  rewrite Hfails in Hclaim. discriminate Hclaim.
Qed.

Lemma range_fallback_not_reached_witness :
  equity_volatility reflib Examples.flat_prices_unadjusted no_notes =
    (Return (None, None),
     add_problem no_notes "Error calculating volatility: 'Adj Close'")
  ∧ ¬ falls_back_to_range reflib.
Proof.
  apply (range_fallback_not_reached reflib Examples.flat_prices_unadjusted
           (replicate 30 100%float) (Examples.zigzag 30 101 103) (replicate 30 99%float));
    first [ reflexivity | vm_compute; lia | vm_compute; reflexivity ].
Defined.

(** *** The operands of the solver

    The two facts the solver's arithmetic rests on: the face value of debt
    it is given is a numpy float64, and the equity value is a number that
    is not problematic. *)

Lemma safe_get_value_cases df keys index :
  (safe_get df keys index).1 = VPy 0 ∨ ∃ x, (safe_get df keys index).1 = VNp x.
Proof.
  rewrite safe_get_first_qualifying.
  destruct (first_qualifying df keys index) as [[x key]|]; simpl; eauto.
Qed.

Lemma usable_safe_get_is_np df keys index :
  is_problematic (safe_get df keys index).1 = false →
  V.is_np (safe_get df keys index).1 = true.
Proof.
  destruct (safe_get_value_cases df keys index) as [-> | [x ->]]; [ | done ].
  by vm_compute.
Qed.

Lemma resolve_total_liabilities_np balance_sheet :
  hoare anything (λ _ _, True) (resolve_total_liabilities balance_sheet)
    (λ v, V.is_np v = true).
Proof.
  unfold resolve_total_liabilities. cbv zeta.
  apply hoare_if; intros Hp;
    [ | apply hoare_ret, usable_safe_get_is_np; exact Hp ].
  hoare_lift_as total_liabilities Hsum.
  apply hoare_if; intros Hsum'.
  - hoare_step; [ by hoare_auto trivial_side | ]. apply hoare_ret.
    apply negb_true_iff in Hsum'.
    destruct (safe_get_value_cases balance_sheet
                ["Current Liabilities"; "TotalCurrentLiabilities"] 0) as [H1 | [x H1]];
      destruct (safe_get_value_cases balance_sheet
                  ["Long Term Debt"; "LongTermDebt"] 0) as [H2 | [y H2]];
      rewrite H1, H2 in Hsum; injection Hsum as <-; done.
  - apply hoare_if; intros Hdebt; [ | by hoare_auto trivial_side ].
    hoare_lift_as scaled Hscaled.
    hoare_step; [ by hoare_auto trivial_side | ]. apply hoare_ret.
    apply negb_true_iff, usable_safe_get_is_np in Hdebt.
    clear -Hdebt Hscaled. destruct (safe_get _ _ _).1; try done.
    unfold V.mul, V.arith in Hscaled. by injection Hscaled as <-.
Qed.

Lemma resolve_market_cap_usable stock_data balance_sheet info :
  hoare anything (λ _ _, True) (resolve_market_cap stock_data balance_sheet info)
    (λ v, is_num v).
Proof.
  unfold resolve_market_cap. cbv zeta.
  apply hoare_if; intros Hp.
  - eapply hoare_bind with (P := λ _, True); [ by hoare_auto trivial_side | intros shares _ ].
    eapply hoare_bind with (P := λ _, True); [ by hoare_auto trivial_side | intros price _ ].
    hoare_lift_as market_cap Hmc.
    apply hoare_if; intros Hmc'.
    + hoare_step; [ by hoare_auto trivial_side | ]. apply hoare_ret.
      by eapply arith_num.
    + apply hoare_if; intros Hte; [ | by hoare_auto trivial_side ].
      hoare_lift_as premium Hpremium.
      hoare_step; [ by hoare_auto trivial_side | ]. apply hoare_ret.
      by eapply arith_num.
  - apply hoare_ret. intros Heq. by rewrite Heq in Hp.
Qed.

(** ** The O-Score *)

Lemma div_num a b v : V.div a b = Ok v → is_num v.
Proof.
  destruct a, b; simpl; intros H; simplify_eq; try done.
  by destruct (_ =? _)%float; simplify_eq.
Qed.

Lemma lift2_num op a b v :
  (∀ x y w, op x y = Ok w → is_num w) → lift2 op a b = Ok v → is_num v.
Proof.
  intros Hop. unfold lift2. destruct a as [x|]; [ | done ]. destruct b as [y|]; [ | done ].
  simpl. apply Hop.
Qed.

Lemma indicator_num c : is_num (indicator c).
Proof. by destruct c. Qed.

Lemma py_math_log_num lib x v : py_math_log lib x = Ok v → is_num v.
Proof.
  destruct x; simpl; [ done | | ]; destruct (math_log lib _); simpl; intros; by simplify_eq.
Qed.

Lemma evals_lit x : evals (lit x) x.
Proof. by exists (VPy x). Qed.

Lemma evals_var v : is_num v → evals (var v) (V.payload v).
Proof. by exists v. Qed.

Lemma evals_arith name op a b x y :
  evals a x → evals b y → evals (lift2 (V.arith name op) a b) (op x y).
Proof.
  intros (v & -> & Hv & <-) (w & -> & Hw & <-).
  destruct v, w; try done; simpl; eexists; by repeat split.
Qed.

Lemma evals_add a b x y : evals a x → evals b y → evals (a + b)%py (x + y)%float.
Proof. apply evals_arith. Qed.

Lemma evals_sub a b x y : evals a x → evals b y → evals (a - b)%py (x - y)%float.
Proof. apply evals_arith. Qed.

Lemma evals_mul a b x y : evals a x → evals b y → evals (a * b)%py (x * y)%float.
Proof. apply evals_arith. Qed.

Create HintDb evals.
#[local] Hint Resolve evals_lit evals_var evals_add evals_sub evals_mul : evals.

(** The score expression of the program is the formula on the payloads. *)
Lemma o_score_evals (t : ohlson_terms) :
  numeric_terms t →
  evals (lit (-1.32) - lit 0.407 * var (size t) + lit 6.03 * var (tlta t)
         - lit 1.43 * var (wcta t) + lit 0.0757 * var (clca t) + lit 2.37 * var (oeneg t)
         - lit 1.83 * var (nita t) + lit 0.285 * var (intwo t) - lit 1.72 * var (oeneg t)
         - lit 0.521 * var (chin t))%py
        (OhlsonSpec.O_score_of t).
Proof.
  intros (? & ? & ? & ? & ? & ? & ? & ?).
  unfold OhlsonSpec.O_score_of, OhlsonSpec.O_score.
  eauto 30 with evals.
Qed.

(** What [ohlson_score] does with numeric terms. *)
Lemma ohlson_score_spec lib (t : ohlson_terms) (n : notes) :
  numeric_terms t →
  ∃ o_score, V.payload o_score = OhlsonSpec.O_score_of t ∧
    ohlson_score lib t n =
    match math_exp lib (- OhlsonSpec.O_score_of t) with
    | Ok e =>
        if (1 + e =? 0)%float then (Raised "division by zero", n)
        else (Return (Some o_score, Some (VPy (OhlsonSpec.probability e))), n)
    | Raise msg => (Raised msg, n)
    end.
Proof.
  intros Hnum. destruct (o_score_evals t Hnum) as (o & Ho & Hnumo & Hpay).
  exists o. split; [ done | ].
  unfold ohlson_score, mbind at 1, M_bind. rewrite Ho. cbn [lift].
  unfold mbind at 1, M_bind.
  assert (∃ m, V.neg o = Ok m ∧ is_num m ∧ V.payload m = (- OhlsonSpec.O_score_of t)%float)
    as (m & Hm & Hnumm & Hpaym).
  { rewrite <- Hpay. destruct o; [ done | | ]; eexists; by repeat split. }
  rewrite Hm. cbn [mbind result_bind lift2 lit].
  assert (py_math_exp lib m = y ← math_exp lib (- OhlsonSpec.O_score_of t); Ok (VPy y))
    as ->.
  { rewrite <- Hpaym. by destruct m. }
  destruct (math_exp lib _) as [e|msg]; cbn [mbind result_bind lift]; [ | done ].
  unfold V.add, V.arith, V.div. cbn [mbind result_bind].
  unfold OhlsonSpec.probability.
  by destruct (1 + e =? 0)%float.
Qed.

Lemma indicator_cases c : indicator c = VPy 0 ∨ indicator c = VPy 1.
Proof. destruct c; auto. Qed.

(** The terms that [ohlson_ratios] hands on are numbers, and [oeneg] is
    the integer 0 or 1. *)
Lemma ohlson_ratios_numeric lib company :
  hoare anything (λ _ _, True) (ohlson_ratios lib company)
    (λ t, numeric_terms t ∧ (oeneg t = VPy 0 ∨ oeneg t = VPy 1)).
Proof.
  unfold ohlson_ratios.
  do 3 hoare_step. cbv zeta.
  eapply hoare_bind with (P := λ _, True);
    [ by hoare_auto trivial_side | intros total_assets _ ].
  hoare_lift_as size_ Hsize.
  hoare_lift_as working_capital Hwc.
  hoare_lift_as tlta_ Htlta.
  hoare_lift_as wcta_ Hwcta.
  hoare_lift_as clca_ Hclca.
  hoare_lift_as oeneg_ Hoeneg.
  eapply hoare_bind with (P := λ _, True);
    [ by hoare_auto trivial_side | intros net_income _ ].
  hoare_lift_as nita_ Hnita.
  eapply hoare_bind with (P := λ p, is_num p.1 ∧ is_num p.2).
  { apply hoare_try.
    - cbv zeta. hoare_lift_as intwo_ Hintwo. hoare_lift_as chin_ Hchin.
      apply hoare_ret. simpl. split.
      + destruct (V.lt net_income (VPy 0)) as [[]|]; simpl in Hintwo; simplify_eq;
          [ | done ].
        destruct (V.lt _ _) as [[]|]; simpl in Hintwo; by simplify_eq.
      + eapply lift2_num; [ apply div_num | eassumption ].
    - intros e. hoare_step; [ by hoare_auto trivial_side | ].
      by apply hoare_ret. }
  intros [intwo_ chin_] [Hintwo Hchin]. apply hoare_ret.
  assert (oeneg_ = VPy 0 ∨ oeneg_ = VPy 1) as Hcases.
  { destruct (V.gt _ _); simpl in Hoeneg; simplify_eq. apply indicator_cases. }
  split; [ | exact Hcases ]. unfold numeric_terms. cbn.
  repeat split; try done.
  - destruct (V.max2 _ _); simpl in Hsize; [ | done ]. by eapply py_math_log_num.
  - clear -Htlta. destruct (negb _); [ by eapply div_num | by simplify_eq ].
  - by eapply div_num.
  - clear -Hclca. destruct (negb _); [ by eapply div_num | by simplify_eq ].
  - by destruct Hcases as [-> | ->].
  - clear -Hnita. destruct (negb _); [ by eapply div_num | by simplify_eq ].
Qed.

(** C9. Whenever the statements and ratios are resolved into the terms
    [t], the calculator returns the score
    -1.32 - 0.407 size + 6.03 tlta - 1.43 wcta + 0.0757 clca + 2.37 oeneg
    - 1.83 nita + 0.285 intwo - 1.72 oeneg - 0.521 chin
    of those terms, in which the indicator oeneg (0 or 1) enters twice,
    with coefficients +2.37 and -1.72 (+0.65 net, in exact arithmetic),
    together with the probability 1 / (1 + exp(-o_score)); when
    [math.exp] overflows it returns an absent result with a calculation
    error instead. *)
Theorem ohlson_score_is_the_formula (lib : numlib) (company : Company) :
  match ohlson_ratios lib company no_notes with
  | (Normal t, n) =>
      (V.payload (oeneg t) = 0%float ∨ V.payload (oeneg t) = 1%float)
      ∧ ∃ o_score, V.payload o_score = OhlsonSpec.O_score_of t ∧
          calculate_ohlson_score lib company =
          match math_exp lib (- OhlsonSpec.O_score_of t) with
          | Ok e =>
              if (1 + e =? 0)%float then
                Ok ((None, None),
                    problematic_values n ++ ["Calculation Error: division by zero"],
                    substituted_values n)
              else
                Ok ((Some o_score, Some (VPy (OhlsonSpec.probability e))),
                    problematic_values n, substituted_values n)
          | Raise msg =>
              Ok ((None, None), problematic_values n ++ ["Calculation Error: " +:+ msg],
                  substituted_values n)
          end
  | _ => True
  end
  ∧ ∀ x : Q, (2.37 * x - 1.72 * x == 0.65 * x)%Q.
Proof.
  split; [ | intros x; ring ].
  pose proof (ohlson_ratios_numeric lib company no_notes I) as H.
  unfold calculate_ohlson_score, run, try_except, mbind at 1, M_bind.
  destruct (ohlson_ratios lib company no_notes) as [[t|r|e] n]; try done.
  destruct H as (_ & Hnum & Hcases). split.
  { destruct Hcases as [-> | ->]; auto. }
  destruct (ohlson_score_spec lib t n Hnum) as (o & Hpay & ->).
  exists o. split; [ done | ].
  destruct (math_exp lib _) as [e|msg]; [ | done ].
  by destruct (1 + e =? 0)%float.
Qed.

(** ** The sentinel of [safe_get] in [calculate_z_score] *)

Lemma safe_get_sentinel_iff df keys index :
  safe_get df keys index = sentinel ↔ first_qualifying df keys index = None.
Proof.
  rewrite safe_get_first_qualifying.
  destruct (first_qualifying df keys index) as [[x key]|]; split; done.
Qed.

Lemma only_z_score_notes_problem n s :
  s ∈ z_score_notes → only_z_score_notes n → only_z_score_notes (add_problem n s).
Proof.
  intros Hs Hn note. simpl. rewrite !elem_of_app, list_elem_of_singleton.
  intros [[?| ->]|?]; [ | done | ]; apply Hn; rewrite elem_of_app; auto.
Qed.

Lemma only_z_score_notes_substituted n s :
  s ∈ z_score_notes → only_z_score_notes n → only_z_score_notes (add_substituted n s).
Proof.
  intros Hs Hn note. simpl. rewrite !elem_of_app, list_elem_of_singleton.
  intros [?|[?| ->]]; [ | | done ]; apply Hn; rewrite elem_of_app; auto.
Qed.

Ltac z_note_listed :=
  unfold z_score_notes; rewrite !elem_of_cons; tauto.

Ltac z_note_side :=
  try (intros; first
         [ apply only_z_score_notes_problem; [ z_note_listed | assumption ]
         | apply only_z_score_notes_substituted; [ z_note_listed | assumption ]
         | intros ? ?; discriminate ]).

(** Running a body that never falls off its end, under the handler of
    [calculate_z_score]. *)
Lemma run_try_then {R} (I : notes → Prop) (Qr : R → notes → Prop) (body : M R unit)
    (note : string → string) (r0 : R) :
  hoare I Qr body (λ _, False) → I no_notes →
  match run (try_except body (λ e, problem (note e));; return_ r0) with
  | Ok (r, p, s) => r = r0 ∨ Qr r {| problematic_values := p; substituted_values := s |}
  | Raise _ => False
  end.
Proof.
  intros H H0. specialize (H no_notes H0). unfold run, try_except, mbind, M_bind.
  destruct (body no_notes) as [[a|r|e] n']; simpl; [ by destruct H | | by left ].
  right. by destruct n'.
Qed.

(** * The login gate *)

Section LoginProperties.
Variable kdf : string → string → Z → string.

Local Abbreviation init := (Login.init kdf).
Local Abbreviation login := (Login.login kdf).
Local Abbreviation check_session := Login.check_session.

Lemma verify_password_iff timeout raw email password :
  Login.verify_password kdf (init timeout raw).1 email password = true ↔
  (email = "demo@example.com"
   ∧ Login.hash_password kdf password = Login.hash_password kdf "demo123")
  ∨ (email = "admin@example.com"
     ∧ Login.hash_password kdf password = Login.hash_password kdf "admin123").
Proof.
  unfold Login.verify_password, Login.compare_digest. cbn [Login.init fst Login.users].
  destruct (decide (email = "demo@example.com")) as [-> | Hdemo].
  { rewrite lookup_insert_eq. cbv zeta. rewrite bool_decide_eq_true. split; [ auto | ].
    by intros [[_ ?]|[? _]]. }
  rewrite lookup_insert_ne by done.
  destruct (decide (email = "admin@example.com")) as [-> | Hadmin].
  { rewrite lookup_insert_eq. cbv zeta. rewrite bool_decide_eq_true. split; [ auto | ].
    by intros [[? _]|[_ ?]]. }
  rewrite lookup_insert_ne by done. rewrite lookup_empty.
  split; [ done | ]. by intros [[? _]|[? _]].
Qed.

(** X1. Whatever function derives the key: a sign-in succeeds exactly when
    the email is one of the two of the table and the password derives the
    same key as the password stored for that email.  So both pairs of the
    demo table sign in, an email that is not in the table never does, and
    another password gets in only where the key derivation does not tell
    it from the stored one.  A sign-in that succeeds marks the session
    authenticated, with the login time and the email; one that fails
    returns [False] and leaves the session exactly as it was, signed in
    or not. *)
Theorem sign_in_needs_the_stored_key (timeout : Z) (raw : Login.raw_session)
    (email password : string) (now : Login.datetime) (st : Login.session) :
  ((login (init timeout raw).1 email password now st).1 = true
   ↔ (email = "demo@example.com"
      ∧ Login.hash_password kdf password = Login.hash_password kdf "demo123")
     ∨ (email = "admin@example.com"
        ∧ Login.hash_password kdf password = Login.hash_password kdf "admin123"))
  ∧ (Login.demo_credentials email password →
     (login (init timeout raw).1 email password now st).1 = true)
  ∧ ((∀ stored, Login.users (init timeout raw).1 !! email ≠ Some stored) →
     (login (init timeout raw).1 email password now st).1 = false)
  ∧ login (init timeout raw).1 email password now st =
    if (login (init timeout raw).1 email password now st).1
    then (true, {| Login.login_time := Some now; Login.authenticated := true;
                   Login.user_email := Some email |})
    else (false, st).
Proof.
  unfold Login.login.
  pose proof (verify_password_iff timeout raw email password) as Hv.
  split; [ | split; [ | split ] ].
  - rewrite <- Hv. by destruct (Login.verify_password _ _ _ _).
  - intros Hd.
    assert (Login.verify_password kdf (init timeout raw).1 email password = true) as ->;
      [ | done ].
    apply Hv. destruct Hd as [[-> ->]|[-> ->]]; auto.
  - intros Hunknown. unfold Login.verify_password.
    destruct (Login.users (init timeout raw).1 !! email) as [stored|] eqn:Hu; [ | done ].
    by destruct (Hunknown stored).
  - by destruct (Login.verify_password _ _ _ _).
Qed.

(** Every event keeps the session consistent. *)
Lemma step_consistent self st e :
  Login.consistent self st → Login.consistent self (Login.step kdf self st e).
Proof.
  intros Hst. destruct e as [email password now| |now later]; cbn [Login.step].
  - unfold Login.login, Login.verify_password.
    destruct (Login.users self !! email) as [stored|] eqn:Hu; [ | done ].
    cbv zeta. destruct (Login.compare_digest _ _); [ | done ].
    cbn. split; [ by eexists | ]. exists email. by rewrite Hu.
  - done.
  - unfold Login.check_session, Login.consistent in *.
    destruct (Login.authenticated st) eqn:Ha; cbn [negb snd]; [ | by rewrite Ha ].
    destruct Hst as [[t Ht] Hemail]. rewrite Ht. cbv zeta.
    case_bool_decide; cbn; [ done | ]. split; [ by eexists | done ].
Qed.

(** X2. From a fresh browser session, whatever sign-in attempts, logouts
    and session checks follow one another, the session stays consistent:
    it is authenticated exactly when it holds a login time and the email
    of a user of the table, and holds neither when it is not. *)
Theorem session_stays_consistent (timeout : Z) (events : list Login.event) :
  Login.consistent (init timeout Login.fresh).1
    (Login.run_events kdf (init timeout Login.fresh).1 (init timeout Login.fresh).2 events).
Proof.
  unfold Login.run_events.
  assert (Login.consistent (init timeout Login.fresh).1 (init timeout Login.fresh).2)
    as H0 by done.
  revert H0. generalize (init timeout Login.fresh).2 as st.
  induction events as [|e events IH]; intros st Hst; [ done | ].
  cbn [foldl]. apply IH. by apply step_consistent.
Qed.

(** X3. The timeout slides: a signed-in session that is checked again and
    again, each time no later than the timeout after the previous check
    touched it, passes every check, however long the whole run lasts, and
    ends with the login time of the last touch and the same user. *)
Theorem session_slides (self : Login.LoginManager)
    (checks : list (Login.datetime * Login.datetime))
    (st : Login.session) (t : Login.datetime) :
  Login.authenticated st = true →
  Login.login_time st = Some t →
  Login.paced self t checks →
  Login.check_all self st checks =
  (replicate (length checks) true,
   {| Login.login_time := Some (default t (last (t :: map snd checks)));
      Login.authenticated := true;
      Login.user_email := Login.user_email st |}).
Proof.
  revert st t. induction checks as [|[now later] checks IH]; intros st t Ha Ht Hp.
  - cbn. destruct st; cbn in *; by subst.
  - destruct Hp as [Hnow Hp]. cbn [Login.check_all].
    assert (check_session self now later st =
            (true, {| Login.login_time := Some later; Login.authenticated := true;
                      Login.user_email := Login.user_email st |})) as ->.
    { unfold Login.check_session. rewrite Ha, Ht. cbn [negb]. cbv zeta.
      by rewrite bool_decide_eq_false_2 by lia. }
    rewrite (IH {| Login.login_time := Some later; Login.authenticated := true;
                   Login.user_email := Login.user_email st |} later eq_refl eq_refl Hp).
    cbn [Login.user_email length replicate map snd].
    change (last (t :: later :: map snd checks)) with (last (later :: map snd checks)).
    destruct (last (later :: map snd checks)) eqn:Hlast; [ done | ].
    by apply last_None in Hlast.
Qed.

Lemma stays_signed_out self st events :
  Login.authenticated st = false →
  Forall (λ e, Login.is_sign_in e = false) events →
  Login.authenticated (Login.run_events kdf self st events) = false.
Proof.
  unfold Login.run_events. revert st.
  induction events as [|e events IH]; intros st Ha Hes; [ done | ].
  apply Forall_cons in Hes as [He Hes]. cbn [foldl]. apply IH; [ | done ].
  destruct e as [| |now later]; [ done | done | ].
  cbn [Login.step]. unfold Login.check_session. by rewrite Ha.
Qed.

(** X4. A signed-in session that is checked more than the timeout after
    its login time fails the check and is logged out (no login time, no
    email); and from then on, as long as nobody signs in, it stays signed
    out whatever checks and logouts follow. *)
Theorem session_expires (self : Login.LoginManager) (st : Login.session)
    (t now later : Login.datetime) (events : list Login.event) :
  Login.authenticated st = true →
  Login.login_time st = Some t →
  (now - t > Login.minutes (Login.timeout_minutes self))%Z →
  Forall (λ e, Login.is_sign_in e = false) events →
  check_session self now later st = (false, Login.logout st)
  ∧ Login.logout st = {| Login.login_time := None; Login.authenticated := false;
                         Login.user_email := None |}
  ∧ Login.authenticated
      (Login.run_events kdf self (check_session self now later st).2 events) = false.
Proof.
  intros Ha Ht Hnow Hes.
  assert (check_session self now later st = (false, Login.logout st)) as Hcheck.
  { unfold Login.check_session. rewrite Ha, Ht. cbn [negb]. cbv zeta.
    by rewrite bool_decide_eq_true_2 by lia. }
  split; [ done | ]. split; [ done | ]. rewrite Hcheck. by apply stays_signed_out.
Qed.

Lemma initialize_login_system_cases (v : Login.visitor) (c : Login.clock)
    (raw : Login.raw_session) :
  match Login.initialize_login_system kdf v c raw with
  | (Login.Proceed, st) =>
      Login.live_session 30 (Login.at_check c) raw
      ∧ Login.logout_pressed v = false
      ∧ st = {| Login.login_time := Some (Login.at_touch c);
                Login.authenticated := true;
                Login.user_email := Login.raw_user_email raw |}
  | (Login.Rerun, st) =>
      (Login.live_session 30 (Login.at_check c) raw
       ∧ Login.logout_pressed v = true ∧ st = Login.logout st)
      ∨ (¬ Login.live_session 30 (Login.at_check c) raw
         ∧ Login.sign_in_pressed v = true ∧ Login.authenticated st = true
         ∧ Login.user_email st = Some (Login.typed_email v))
  | (Login.Stop _, _) => ¬ Login.live_session 30 (Login.at_check c) raw
  end.
Proof.
  unfold Login.initialize_login_system, Login.live_session.
  destruct (init 30 raw) as [login_manager st0] eqn:Hinit.
  injection Hinit as <- <-.
  destruct (check_session _ (Login.at_check c) (Login.at_touch c) _) as [valid st1] eqn:Hcheck.
  unfold Login.check_session in Hcheck.
  assert (valid = false →
          ¬ (Login.raw_authenticated raw = Some true
             ∧ ∃ t, Login.raw_login_time raw = Some (Some t)
                    ∧ (Login.at_check c - t <= Login.minutes 30)%Z)) as Hdead.
  { intros -> [Ha (t & Ht & Hlive)]. rewrite Ha, Ht in Hcheck. simpl in Hcheck.
    case_bool_decide; [ | done ]. unfold Login.minutes, Login.datetime in *. lia. }
  destruct valid; cbn [negb].
  - clear Hdead.
    destruct (Login.raw_authenticated raw) as [[]|] eqn:Ha; simpl in Hcheck;
      [ | done | done ].
    destruct (Login.raw_login_time raw) as [[t|]|] eqn:Ht; simpl in Hcheck;
      [ | done | done ].
    case_bool_decide; [ done | ]. injection Hcheck as <-.
    assert (Some true = Some true
            ∧ ∃ t0, Some (Some t) = Some (Some t0)
                    ∧ (Login.at_check c - t0 <= Login.minutes 30)%Z) as Hlive.
    { split; [ done | ]. exists t. split; [ done | ].
      unfold Login.minutes, Login.datetime in *; lia. }
    destruct (Login.logout_pressed v) eqn:Hout; [ by left | done ].
  - specialize (Hdead eq_refl). unfold Login.render_login_page.
    destruct (Login.sign_in_pressed v) eqn:Hin; [ | done ].
    destruct (Login.init kdf 30 (Login.to_raw st1)) as [lm st2].
    unfold Login.login. destruct (Login.verify_password _ _ _ _); [ | done ].
    by right.
Qed.

(** X5. The page past the login system is reached in a run exactly when
    the session was already authenticated as the run started, with a
    login time no more than 30 minutes before the check, and the logout
    button was not pressed; the session then carries the time of the new
    touch and keeps its user.  In particular a visitor without a live
    session never gets past in the same run, whatever is typed: a sign-in
    that succeeds ends in a rerun. *)
Theorem page_needs_live_session (v : Login.visitor) (c : Login.clock)
    (raw : Login.raw_session) :
  ((Login.initialize_login_system kdf v c raw).1 = Login.Proceed
   ↔ Login.live_session 30 (Login.at_check c) raw ∧ Login.logout_pressed v = false)
  ∧ ((Login.initialize_login_system kdf v c raw).1 = Login.Proceed →
     (Login.initialize_login_system kdf v c raw).2 =
     {| Login.login_time := Some (Login.at_touch c);
        Login.authenticated := true;
        Login.user_email := Login.raw_user_email raw |}).
Proof.
  pose proof (initialize_login_system_cases v c raw) as H.
  destruct (Login.initialize_login_system kdf v c raw) as [[message| |] st]; cbn [fst snd].
  - split; [ | done ]. split; [ done | ]. by intros [Hlive _].
  - split; [ | done ]. split; [ done | ].
    intros [Hlive Hout]. destruct H as [(_ & Hout' & _)|[Hdead _]]; [ congruence | done ].
  - destruct H as (Hlive & Hout & ->). done.
Qed.

End LoginProperties.

Lemma session_slides_witness :
  Login.check_all (Login.init Login.toy_kdf 30 Login.fresh).1
    {| Login.login_time := Some 0%Z; Login.authenticated := true;
       Login.user_email := Some "demo@example.com" |}
    [(1500000000, 1500000001); (3200000000, 3200000002); (5000000000, 5000000003)]%Z =
  ([true; true; true],
   {| Login.login_time := Some 5000000003%Z; Login.authenticated := true;
      Login.user_email := Some "demo@example.com" |}).
Proof.
  assert (Login.paced (Login.init Login.toy_kdf 30 Login.fresh).1 0%Z
            [(1500000000, 1500000001); (3200000000, 3200000002);
             (5000000000, 5000000003)]%Z) as Hpaced.
  { cbn. unfold Login.minutes. lia. }
  exact (session_slides (Login.init Login.toy_kdf 30 Login.fresh).1
           [(1500000000, 1500000001); (3200000000, 3200000002); (5000000000, 5000000003)]%Z
           {| Login.login_time := Some 0%Z; Login.authenticated := true;
              Login.user_email := Some "demo@example.com" |}
           0%Z eq_refl eq_refl Hpaced).
Defined.

Lemma session_expires_witness :
  Login.check_session (Login.init Login.toy_kdf 30 Login.fresh).1 1800000001%Z 1800000002%Z
    {| Login.login_time := Some 0%Z; Login.authenticated := true;
       Login.user_email := Some "demo@example.com" |} =
  (false, {| Login.login_time := None; Login.authenticated := false;
             Login.user_email := None |}).
Proof.
  assert (1800000001 - 0 > Login.minutes 30)%Z as Hlate.
  { unfold Login.minutes. lia. }
  assert (Forall (λ e, Login.is_sign_in e = false)
            [Login.Check 1800000005%Z 1800000006%Z; Login.SignOut]) as Hevents.
  { by repeat constructor. }
  exact (proj1 (session_expires Login.toy_kdf (Login.init Login.toy_kdf 30 Login.fresh).1
           {| Login.login_time := Some 0%Z; Login.authenticated := true;
              Login.user_email := Some "demo@example.com" |}
           0%Z 1800000001%Z 1800000002%Z [Login.Check 1800000005%Z 1800000006%Z; Login.SignOut]
           eq_refl eq_refl Hlate Hevents)).
Defined.

(** * More on the three calculators *)

(** ** [calculate_merton_default]: all or nothing *)

(** Running a body that always returns, under the catch-all handler of a
    calculator. *)
Lemma run_try {R} (I : notes → Prop) (Qr : R → notes → Prop) (body : M R R)
    (note : string → string) (r0 : R) :
  hoare I Qr body (λ _, False) → I no_notes →
  (∀ n e, I n → Qr r0 (add_problem n (note e))) →
  match run (try_except body (λ e, problem (note e);; return_ r0)) with
  | Ok (r, p, s) => Qr r {| problematic_values := p; substituted_values := s |}
  | Raise _ => False
  end.
Proof.
  intros H H0 Hr. specialize (H no_notes H0). unfold run, try_except.
  destruct (body no_notes) as [[a|r|e] n'] eqn:Hbody; simpl.
  - by destruct H.
  - by destruct n'.
  - by apply (Hr n' e).
Qed.

(** The loop does not depend on the notes, and leaves them alone. *)
Lemma iterate_pure lib E F sE fuel i V_A sigma_A :
  ∃ r, ∀ n, iterate lib E F sE fuel i V_A sigma_A n = (Normal r, n).
Proof.
  revert i V_A sigma_A. induction fuel as [|fuel IH]; intros i V_A sigma_A.
  - by exists (V_A, sigma_A, false).
  - pose proof (iteration_body_spec lib E F sE (V_A, sigma_A)) as Hbody.
    cbn [fst snd] in Hbody.
    destruct (MertonSpec.converged _ _ _ _ _ _) eqn:Hc.
    + exists (V_A, sigma_A, true). intros n. cbn [iterate].
      unfold try_except, mbind, M_bind, lift. by rewrite Hbody.
    + destruct (IH (S i) (MertonSpec.damp (np_log lib) (norm_cdf lib) E F sE (V_A, sigma_A)).1
                  (MertonSpec.damp (np_log lib) (norm_cdf lib) E F sE (V_A, sigma_A)).2)
        as [r Hr].
      exists r. intros n. by rewrite (iterate_continue _ _ _ _ _ _ _ _ _ _ _ Hbody).
Qed.

Lemma clamp_in_range (p : float) :
  (0.99 <? MertonSpec.clamp p)%float = false ∧ (MertonSpec.clamp p <? 0.01)%float = false.
Proof.
  unfold MertonSpec.clamp.
  destruct (0.99 <? p)%float eqn:Hcap; [ by vm_compute | ].
  destruct (p <? 0.01)%float eqn:Hfloor; [ by vm_compute | done ].
Qed.

(** The solver, started on any notes: it returns what it returns on empty
    ones, a probability within the sanity checks and a distance, and adds
    no problematic value. *)
Lemma merton_solve_any_notes lib (E F sigma_E : float) (n : notes) :
  ∃ prob distance n',
    merton_solve lib E F sigma_E n = (Return (Some prob, Some distance), n')
    ∧ problematic_values n' = problematic_values n
    ∧ merton_probability lib E F sigma_E = Some prob
    ∧ merton_distance lib E F sigma_E = Some distance
    ∧ (0.99 <? prob)%float = false ∧ (prob <? 0.01)%float = false.
Proof.
  destruct (merton_solve_spec lib E F sigma_E n) as (V_A & sigma_A & c & Hrun & Hsolve).
  destruct (merton_solve_spec lib E F sigma_E no_notes)
    as (V_A0 & sigma_A0 & c0 & Hrun0 & Hsolve0).
  cbv zeta in Hsolve, Hsolve0.
  destruct (iterate_pure lib E F sigma_E max_iterations 0
              (MertonSpec.initial E F sigma_E).1 (MertonSpec.initial E F sigma_E).2)
    as [r Hr].
  unfold implied_assets in Hrun, Hrun0. cbv zeta in Hrun, Hrun0.
  cbn [MertonSpec.initial fst snd] in Hr.
  rewrite Hr in Hrun, Hrun0. injection Hrun as ->. injection Hrun0 as [= <- <- <-].
  eexists _, _, _. split; [ exact Hsolve | ].
  split.
  { unfold solver_notes. destruct c; repeat (destruct (_ <? _)%float); done. }
  unfold merton_probability, merton_distance. rewrite Hsolve0.
  split; [ done | ]. split; [ done | ]. apply clamp_in_range.
Qed.

Lemma merton_solve_all_or_nothing lib (E F sigma_E : float) (Q : merton_result → Prop) :
  (sigma_E =? 0)%float = false → F.isnan sigma_E = false →
  hoare no_problem (merton_all_or_nothing lib) (merton_solve lib E F sigma_E) Q.
Proof.
  intros Hzero Hnan n Hn.
  destruct (merton_solve_any_notes lib E F sigma_E n)
    as (prob & distance & n' & -> & Hn' & Hp & Hd & Hcap & Hfloor).
  right. split; [ | unfold no_problem in Hn; congruence ].
  by exists E, F, sigma_E, prob, distance.
Qed.

Lemma all_or_nothing_after_problem lib (n : notes) (s : string) :
  no_problem n → merton_all_or_nothing lib (None, None) (add_problem n s).
Proof. intros Hn. left. split; [ done | ]. exists s. simpl. by rewrite Hn. Qed.

Lemma no_problem_substituted (n : notes) (s : string) :
  no_problem n → no_problem (add_substituted n s).
Proof. done. Qed.

Ltac merton_side :=
  try (intros; first
         [ apply all_or_nothing_after_problem; assumption
         | apply no_problem_substituted; assumption ]).

(** The volatility handed to the solver is never zero and never NaN. *)
Lemma equity_volatility_usable lib stock_data :
  hoare no_problem (merton_all_or_nothing lib) (equity_volatility lib stock_data)
    (λ vol, (vol =? 0)%float = false ∧ F.isnan vol = false).
Proof.
  unfold equity_volatility. apply hoare_try; [ | intros e; by hoare_auto merton_side ].
  hoare_step. cbv zeta.
  eapply hoare_bind with (P := λ _, True); [ by hoare_auto merton_side | intros returns _ ].
  apply hoare_if; intros Hvol.
  - hoare_step; [ by hoare_auto merton_side | ]. apply hoare_ret. by vm_compute.
  - apply hoare_ret. apply orb_false_iff in Hvol as [Hnan Hzero]. done.
Qed.

(** X6. Whatever the company's data, and whatever the network does,
    [calculate_merton_default] returns all or nothing.  Either the
    probability and the distance are both absent and the problematic
    list holds exactly one reason; or both are present, the problematic
    list is empty, the two numbers are what the solver gives for some
    equity value, debt and a volatility that is neither zero nor NaN, and
    the probability is neither above 0.99 nor below 0.01 (it may be
    NaN). *)
Theorem merton_is_all_or_nothing (lib : numlib) (company : Company) :
  match calculate_merton_default lib company with
  | Ok (r, p, s) =>
      (r = (None, None) ∧ ∃ reason, p = [reason])
      ∨ (merton_complete lib r ∧ p = [])
  | Raise _ => False
  end.
Proof.
  unfold calculate_merton_default.
  apply (run_try no_problem (merton_all_or_nothing lib));
    [ | done | intros n e Hn; by apply all_or_nothing_after_problem ].
  eapply hoare_bind with (P := λ _, True);
    [ unfold fetch_stock_data; by hoare_auto merton_side | intros stock_data _ ].
  eapply hoare_bind; [ apply equity_volatility_usable | intros equity_vol [Hzero Hnan] ].
  do 3 (eapply hoare_bind with (P := λ _, True); [ by hoare_auto merton_side | intros ? _ ]).
  eapply hoare_bind with (P := λ _, True);
    [ unfold resolve_market_cap; by hoare_auto merton_side | intros market_cap _ ].
  eapply hoare_bind with (P := λ _, True);
    [ unfold resolve_total_liabilities; by hoare_auto merton_side
    | intros total_liabilities _ ].
  by apply merton_solve_all_or_nothing.
Qed.

(** X7. A share whose closes do not move (zero or NaN standard deviation
    of the close log-returns) in a price frame of at least 30 rows that
    has no 'Adj Close' column: the lookup of the adjusted close raises
    [KeyError], the high-low range is never tried, and the calculator
    returns an absent result whose only note is "Error calculating
    volatility: 'Adj Close'", whatever the balance sheet and the company
    information hold. *)
Theorem missing_adjusted_close_is_absent (lib : numlib) (company : Company)
    (stock_data : History) (close : list float) :
  history company "1y" = Ok stock_data →
  30 ≤ h_len stock_data →
  column stock_data "Close" = Ok close →
  unusable (series_std lib (log_returns lib close)) = true →
  h_cols stock_data !! "Adj Close" = None →
  calculate_merton_default lib company =
  Ok ((None, None), ["Error calculating volatility: 'Adj Close'"], []).
Proof.
  intros Hhistory Hlen Hclose Hflat Hadj.
  assert (column stock_data "Adj Close" = Raise "'Adj Close'") as Hraise.
  { unfold column. by rewrite Hadj. }
  unfold calculate_merton_default, run, try_except at 1, mbind at 1, M_bind.
  unfold fetch_stock_data, try_except, mbind, M_bind.
  rewrite Hhistory. cbn [lift]. rewrite bool_decide_eq_false_2 by lia. cbn [ret].
  unfold equity_volatility, try_except, mbind, M_bind.
  rewrite Hclose. cbn [lift]. rewrite Hflat, Hraise. reflexivity.
Qed.

Lemma missing_adjusted_close_is_absent_witness :
  calculate_merton_default reflib (Examples.with_history Examples.flat_prices_unadjusted) =
  Ok ((None, None), ["Error calculating volatility: 'Adj Close'"], []).
Proof.
  apply (missing_adjusted_close_is_absent reflib
           (Examples.with_history Examples.flat_prices_unadjusted)
           Examples.flat_prices_unadjusted (replicate 30 100%float));
    first [ reflexivity | vm_compute; lia | vm_compute; reflexivity ].
Defined.

(** ** [calculate_z_score]: the score in terms of the statements *)

Section Completes.
Context {R : Type} (I : notes → Prop) (Qr : R → notes → Prop).

Lemma completes_ret {A} (a : A) (Q : A → Prop) : Q a → completes I Qr (ret a) Q.
Proof. intros H n Hn. simpl. auto. Qed.

Lemma completes_return {A} (r : R) (Q : A → Prop) :
  (∀ n, I n → Qr r n) → completes I Qr (return_ r) Q.
Proof. intros H n Hn. simpl. auto. Qed.

Lemma completes_problem (s : string) (Q : unit → Prop) :
  (∀ n, I n → I (add_problem n s)) → Q () → completes I Qr (problem s) Q.
Proof. intros HI H n Hn. simpl. split; [ by apply HI | done ]. Qed.

Lemma completes_substituted (s : string) (Q : unit → Prop) :
  (∀ n, I n → I (add_substituted n s)) → Q () → completes I Qr (substituted s) Q.
Proof. intros HI H n Hn. simpl. split; [ by apply HI | done ]. Qed.

Lemma completes_bind {A B} (c : M R A) (k : A → M R B) (P : A → Prop) (Q : B → Prop) :
  completes I Qr c P → (∀ a, P a → completes I Qr (k a) Q) → completes I Qr (c ≫= k) Q.
Proof.
  intros Hc Hk n Hn. specialize (Hc n Hn). unfold mbind, M_bind.
  destruct (c n) as [[a|r|e] n']; auto. destruct Hc as [Hn' Ha]. by apply Hk.
Qed.

(** A statement [a = c] whose right-hand side evaluates. *)
Lemma completes_let {A B} (c : result A) (k : A → M R B) (a : A) (Q : B → Prop) :
  c = Ok a → completes I Qr (k a) Q → completes I Qr (lift c ≫= k) Q.
Proof. intros -> Hk n Hn. unfold mbind, M_bind, lift. by apply Hk. Qed.

Lemma completes_if {A} (b : bool) (c1 c2 : M R A) (Q : A → Prop) :
  (b = true → completes I Qr c1 Q) → (b = false → completes I Qr c2 Q) →
  completes I Qr (if b then c1 else c2) Q.
Proof. destruct b; auto. Qed.

(** A [try] whose body does not raise: the handler does not run. *)
Lemma completes_try {A} (body : M R A) (handler : string → M R A) (Q : A → Prop) :
  completes I Qr body Q → completes I Qr (try_except body handler) Q.
Proof.
  intros Hb n Hn. specialize (Hb n Hn). unfold try_except.
  by destruct (body n) as [[a|r|e] n'].
Qed.

Lemma run_completes (body : M R unit) (handler : string → M R unit) (r0 : R) :
  completes I Qr body (λ _, False) → I no_notes →
  match run (try_except body handler;; return_ r0) with
  | Ok (r, p, s) => Qr r {| problematic_values := p; substituted_values := s |}
  | Raise _ => False
  end.
Proof.
  intros H H0. specialize (H no_notes H0). unfold run, try_except, mbind, M_bind.
  destruct (body no_notes) as [[a|r|e] n']; simpl; [ by destruct H | | done ].
  by destruct n'.
Qed.
End Completes.

(** Arithmetic on numbers evaluates, to the operation on the payloads. *)
Lemma arith_ok name op a b :
  is_num a → is_num b →
  ∃ v, V.arith name op a b = Ok v ∧ is_num v ∧ V.payload v = op (V.payload a) (V.payload b).
Proof. intros Ha Hb. destruct a, b; try done; eexists; by repeat split. Qed.

Lemma is_problematic_payload v :
  is_num v → is_problematic v = is_problematic (VPy (V.payload v)).
Proof. by destruct v. Qed.

Lemma usable_is_num v : is_problematic v = false → is_num v.
Proof. by destruct v. Qed.

Lemma usable_nonzero v : is_problematic v = false → (V.payload v =? 0)%float = false.
Proof.
  destruct v; [ done | | ]; simpl; intros H;
    repeat (apply orb_false_iff in H as [H ?]); done.
Qed.

(** A division by a usable value evaluates, whatever kind of number the
    divisor is. *)
Lemma div_ok a b :
  is_num a → is_problematic b = false →
  ∃ v, V.div a b = Ok v ∧ is_num v ∧ V.payload v = (V.payload a / V.payload b)%float.
Proof.
  intros Ha Hb. pose proof (usable_nonzero b Hb) as Hnz.
  destruct a, b; try done; simpl in *; rewrite ?Hnz; eexists; by repeat split.
Qed.

Lemma latest_is_num df keys : is_num (ZSpec.latest df keys).
Proof.
  unfold ZSpec.latest.
  by destruct (safe_get_value_cases df keys 0) as [-> | [x ->]].
Qed.

(** The score expression of the program is the weighted sum of the
    payloads. *)
Lemma z_score_evals (A B C D E : value) :
  is_num A → is_num B → is_num C → is_num D → is_num E →
  evals (lit 1.2 * var A + lit 1.4 * var B + lit 3.3 * var C
         + lit 0.6 * var D + lit 1.0 * var E)%py
        (1.2 * V.payload A + 1.4 * V.payload B + 3.3 * V.payload C
         + 0.6 * V.payload D + 1.0 * V.payload E)%float.
Proof. intros. eauto 30 with evals. Qed.

(** What is asked of the result: a score is returned exactly when total
    assets are resolved, and it is the formula. *)
Local Abbreviation z_result bs inc info_ := (λ (r : option value) (_ : notes),
  match r with
  | Some z =>
      ZSpec.total_assets_resolved bs = true
      ∧ is_num z ∧ V.payload z = ZSpec.Z bs inc info_
  | None => ZSpec.total_assets_resolved bs = false
  end).

(** X8. Once the statements and the company information are fetched and
    the market value can be computed (the market capitalisation is
    usable, or the share count and the price are not [None]),
    [calculate_z_score] does not fail: it returns a score exactly when
    total assets are resolved (reported, or the sum of current and
    non-current assets, and not problematic), and the score is
    1.2 A + 1.4 B + 3.3 C + 0.6 D + 1.0 E with A = working capital / total
    assets, B = retained earnings / total assets, C = EBIT / total assets,
    D = market value / total liabilities (0 when total liabilities are
    not usable) and E = sales / total assets, each input taken with its
    fallback. *)
Theorem z_score_is_the_formula (yf_Ticker : string → result Company) (ticker : string)
    (company : Company) (bs inc : DataFrame) (info_ : gmap string value) :
  yf_Ticker ticker = Ok company →
  balance_sheet company = Ok bs →
  income_stmt company = Ok inc →
  info company = Ok info_ →
  ZSpec.market_value_known info_ →
  match calculate_z_score yf_Ticker ticker with
  | Ok (Some z, _, _) =>
      ZSpec.total_assets_resolved bs = true
      ∧ is_num z ∧ V.payload z = ZSpec.Z bs inc info_
  | Ok (None, _, _) => ZSpec.total_assets_resolved bs = false
  | Raise _ => False
  end.
Proof.
  intros Hyf Hbs Hinc Hinfo Hmv.
  assert (match calculate_z_score yf_Ticker ticker with
          | Ok (r, p, s) =>
              z_result bs inc info_ r {| problematic_values := p; substituted_values := s |}
          | Raise _ => False
          end) as H.
  { unfold calculate_z_score.
    apply (run_completes anything (z_result bs inc info_)); [ | done ].
    do 4 (eapply completes_let; [ eassumption | ]). cbv zeta.
    fold (ZSpec.latest bs ["Total Assets"; "TotalAssets"]).
    (* Total Assets *)
    eapply completes_bind with
      (P := λ ta, is_problematic ta = false ∧ V.payload ta = ZSpec.total_assets bs).
    { apply completes_if; intros Hp.
      - destruct (arith_ok "+" PrimFloat.add
                    (ZSpec.latest bs ["Current Assets"; "TotalCurrentAssets"])
                    (ZSpec.latest bs ["Non Current Assets"; "TotalNonCurrentAssets"]))
          as (ta & Hta & Hnum & Hpay); [ apply latest_is_num .. | ].
        eapply completes_let; [ exact Hta | ].
        assert (V.payload ta = ZSpec.total_assets bs) as Hspec.
        { unfold ZSpec.total_assets. cbv zeta. by rewrite Hp. }
        apply completes_if; intros Hta'.
        + eapply completes_bind with (P := λ _, True);
            [ by apply completes_substituted | intros _ _ ].
          apply completes_ret. by apply negb_true_iff in Hta'.
        + eapply completes_bind with (P := λ _, True);
            [ by apply completes_problem | intros _ _ ].
          apply completes_return. intros _ _. unfold ZSpec.total_assets_resolved.
          rewrite <- Hspec, <- is_problematic_payload by done.
          by rewrite negb_false_iff in Hta' |- *.
      - apply completes_ret. split; [ done | ].
        unfold ZSpec.total_assets. cbv zeta. by rewrite Hp. }
    intros total_assets [Hta Hta_spec].
    (* Working Capital *)
    destruct (arith_ok "-" PrimFloat.sub
                (ZSpec.latest bs ["Current Assets"; "CurrentAssets"; "TotalCurrentAssets"])
                (ZSpec.latest bs ["Current Liabilities"; "CurrentLiabilities";
                                  "TotalCurrentLiabilities"]))
      as (working_capital & Hwc & Hwc_num & Hwc_spec); [ apply latest_is_num .. | ].
    eapply completes_let; [ exact Hwc | ].
    (* Retained Earnings *)
    fold (ZSpec.latest bs ["Retained Earnings"; "RetainedEarnings"]).
    eapply completes_bind with
      (P := λ re, is_num re ∧ V.payload re = ZSpec.retained_earnings bs).
    { apply completes_if; intros Hp.
      - destruct (arith_ok "-" PrimFloat.sub
                    (ZSpec.latest bs ["Total Equity"; "TotalEquity"])
                    (ZSpec.latest bs ["Capital Stock"; "CommonStock"]))
          as (re & Hre & Hnum & Hpay); [ apply latest_is_num .. | ].
        eapply completes_let; [ exact Hre | ].
        eapply completes_bind with (P := λ _, True).
        { apply completes_if; intros _;
            [ by apply completes_substituted | by apply completes_problem ]. }
        intros _ _. apply completes_ret. split; [ done | ].
        unfold ZSpec.retained_earnings. cbv zeta. by rewrite Hp.
      - apply completes_ret. split; [ apply latest_is_num | ].
        unfold ZSpec.retained_earnings. cbv zeta. by rewrite Hp. }
    intros retained_earnings [Hre_num Hre_spec].
    (* EBIT *)
    fold (ZSpec.latest inc ["EBIT"; "OperatingIncome"]).
    eapply completes_bind with (P := λ e, is_num e ∧ V.payload e = ZSpec.ebit inc).
    { apply completes_if; intros Hp.
      - destruct (arith_ok "-" PrimFloat.sub
                    (ZSpec.latest inc ["EBITDA"])
                    (ZSpec.latest inc ["Depreciation"; "DepreciationAndAmortization"]))
          as (e & He & Hnum & Hpay); [ apply latest_is_num .. | ].
        eapply completes_let; [ exact He | ].
        eapply completes_bind with (P := λ _, True).
        { apply completes_if; intros _;
            [ by apply completes_substituted | by apply completes_problem ]. }
        intros _ _. apply completes_ret. split; [ done | ].
        unfold ZSpec.ebit. cbv zeta. by rewrite Hp.
      - apply completes_ret. split; [ apply latest_is_num | ].
        unfold ZSpec.ebit. cbv zeta. by rewrite Hp. }
    intros ebit [Hebit_num Hebit_spec].
    (* Market Value of Equity *)
    eapply completes_bind with
      (P := λ mv, is_num mv ∧ V.payload mv = ZSpec.market_value info_).
    { unfold ZSpec.market_value_known in Hmv.
      apply completes_if; intros Hp; rewrite Hp in Hmv.
      - destruct Hmv as [Hshares Hprice].
        destruct (arith_ok "*" PrimFloat.mul (info_get info_ "sharesOutstanding")
                    (info_get info_ "currentPrice") Hshares Hprice)
          as (mv & Hmul & Hnum & Hpay).
        eapply completes_let; [ exact Hmul | ].
        eapply completes_bind with (P := λ _, True).
        { apply completes_if; intros _;
            [ by apply completes_substituted | by apply completes_problem ]. }
        intros _ _. apply completes_ret. split; [ done | ].
        unfold ZSpec.market_value. cbv zeta. by rewrite Hp.
      - apply completes_ret. split; [ by apply usable_is_num | ].
        unfold ZSpec.market_value. cbv zeta. by rewrite Hp. }
    intros market_value [Hmv_num Hmv_spec].
    (* Sales *)
    eapply completes_bind with (P := λ _, True).
    { apply completes_if; intros _; [ by apply completes_problem | by apply completes_ret ]. }
    intros _ _. rewrite Hta. cbn [negb].
    (* the ratios *)
    destruct (div_ok working_capital total_assets Hwc_num Hta) as (A & HA & HA_num & HA_spec).
    destruct (div_ok retained_earnings total_assets Hre_num Hta)
      as (B & HB & HB_num & HB_spec).
    destruct (div_ok ebit total_assets Hebit_num Hta) as (C & HC & HC_num & HC_spec).
    destruct (div_ok (ZSpec.latest inc ["Total Revenue"; "TotalRevenue"; "Revenue"])
                total_assets (latest_is_num _ _) Hta) as (E & HE & HE_num & HE_spec).
    eapply completes_let; [ exact HA | ].
    eapply completes_let; [ exact HB | ].
    eapply completes_let; [ exact HC | ].
    fold (ZSpec.latest bs ["Total Liabilities Net Minority Interest"; "TotalLiabilities";
                           "Total Liabilities"]).
    fold (ZSpec.total_liabilities bs).
    assert (∃ D, (if negb (is_problematic (ZSpec.total_liabilities bs))
                  then V.div market_value (ZSpec.total_liabilities bs)
                  else Ok (VPy 0)) = Ok D
                 ∧ is_num D ∧ V.payload D = ZSpec.X4 bs info_) as (D & HD & HD_num & HD_spec).
    { unfold ZSpec.X4.
      destruct (is_problematic (ZSpec.total_liabilities bs)) eqn:Htl; cbn [negb].
      - by exists (VPy 0).
      - destruct (div_ok market_value _ Hmv_num Htl) as (D & HD & HD_num & HD_spec).
        exists D. by rewrite <- Hmv_spec. }
    eapply completes_let; [ exact HD | ].
    eapply completes_let; [ exact HE | ].
    destruct (z_score_evals A B C D E) as (z & Hz & Hz_num & Hz_spec); try done.
    eapply completes_let; [ exact Hz | ].
    apply completes_return. intros _ _.
    split; [ | split; [ done | ] ].
    - unfold ZSpec.total_assets_resolved.
      rewrite <- Hta_spec, <- is_problematic_payload by by apply usable_is_num.
      by rewrite Hta.
    - rewrite Hz_spec, HA_spec, HB_spec, HC_spec, HD_spec, HE_spec.
      rewrite Hwc_spec, Hre_spec, Hebit_spec, Hta_spec. reflexivity. }
  destruct (calculate_z_score yf_Ticker ticker) as [[[[z|] p] s]|e]; done.
Qed.

Lemma z_score_is_the_formula_witness :
  match calculate_z_score (λ _, Ok Examples.bank) "BANK" with
  | Ok (Some z, _, _) =>
      ZSpec.total_assets_resolved Examples.bank_balance_sheet = true
      ∧ is_num z
      ∧ V.payload z =
        ZSpec.Z Examples.bank_balance_sheet Examples.bank_income_stmt Examples.bank_info
  | Ok (None, _, _) => ZSpec.total_assets_resolved Examples.bank_balance_sheet = false
  | Raise _ => False
  end.
Proof.
  apply (z_score_is_the_formula (λ _, Ok Examples.bank) "BANK" Examples.bank
           Examples.bank_balance_sheet Examples.bank_income_stmt Examples.bank_info);
    first [ reflexivity | by vm_compute ].
Defined.

(** ** The sentinel of [safe_get] in [calculate_z_score] *)

(** Arithmetic that evaluated did so on the payloads. *)
Lemma arith_payload name op a b v :
  V.arith name op a b = Ok v →
  is_num v ∧ V.payload v = op (V.payload a) (V.payload b).
Proof. destruct a, b; simpl; intros H; by simplify_eq. Qed.

Lemma div_payload a b v :
  V.div a b = Ok v → is_num v ∧ V.payload v = (V.payload a / V.payload b)%float.
Proof.
  destruct a, b; simpl; try destruct (_ =? _)%float; intros H; by simplify_eq.
Qed.

(** Whatever the data provider does: a score that [calculate_z_score]
    returns is the formula on the statements it fetched, each input with
    its fallback, and comes with notes of the calculator only. *)
Lemma calculate_z_score_on_statements yf_Ticker ticker :
  match calculate_z_score yf_Ticker ticker with
  | Ok (r, p, s) =>
      z_score_on_statements yf_Ticker ticker r
        {| problematic_values := p; substituted_values := s |}
  | Raise _ => False
  end.
Proof.
  assert (match calculate_z_score yf_Ticker ticker with
          | Ok (r, p, s) =>
              r = None
              ∨ z_score_on_statements yf_Ticker ticker r
                  {| problematic_values := p; substituted_values := s |}
          | Raise _ => False
          end) as H.
  { unfold calculate_z_score.
    apply (run_try_then only_z_score_notes (z_score_on_statements yf_Ticker ticker));
      [ | by intros note Hin%elem_of_nil ].
    hoare_lift_as company Hyf. hoare_lift_as bs Hbs.
    hoare_lift_as inc Hinc. hoare_lift_as info_ Hinfo. cbv zeta.
    (* Total Assets *)
    eapply hoare_bind with
      (P := λ ta, is_problematic ta = false ∧ V.payload ta = ZSpec.total_assets bs).
    { apply hoare_if; intros Hp.
      - hoare_lift_as ta Hta. apply arith_payload in Hta as [Hnum Hpay].
        apply hoare_if; intros Hta'; [ | apply hoare_problem_return; by z_note_side ].
        eapply hoare_bind with (P := λ _, True); [ by hoare_auto z_note_side | intros _ _ ].
        apply hoare_ret. split; [ by apply negb_true_iff | ].
        unfold ZSpec.total_assets, ZSpec.latest. cbv zeta. by rewrite Hp.
      - apply hoare_ret. split; [ done | ].
        unfold ZSpec.total_assets, ZSpec.latest. cbv zeta. by rewrite Hp. }
    intros total_assets [Hta Hta_spec].
    (* Working Capital *)
    hoare_lift_as working_capital Hwc. apply arith_payload in Hwc as [Hwc_num Hwc_spec].
    (* Retained Earnings *)
    eapply hoare_bind with
      (P := λ re, is_num re ∧ V.payload re = ZSpec.retained_earnings bs).
    { apply hoare_if; intros Hp.
      - hoare_lift_as re Hre. apply arith_payload in Hre as [Hnum Hpay].
        eapply hoare_bind with (P := λ _, True); [ by hoare_auto z_note_side | intros _ _ ].
        apply hoare_ret. split; [ done | ].
        unfold ZSpec.retained_earnings, ZSpec.latest. cbv zeta. by rewrite Hp.
      - apply hoare_ret. split; [ apply latest_is_num | ].
        unfold ZSpec.retained_earnings, ZSpec.latest. cbv zeta. by rewrite Hp. }
    intros retained_earnings [Hre_num Hre_spec].
    (* EBIT *)
    eapply hoare_bind with (P := λ e, is_num e ∧ V.payload e = ZSpec.ebit inc).
    { apply hoare_if; intros Hp.
      - hoare_lift_as e He. apply arith_payload in He as [Hnum Hpay].
        eapply hoare_bind with (P := λ _, True); [ by hoare_auto z_note_side | intros _ _ ].
        apply hoare_ret. split; [ done | ].
        unfold ZSpec.ebit, ZSpec.latest. cbv zeta. by rewrite Hp.
      - apply hoare_ret. split; [ apply latest_is_num | ].
        unfold ZSpec.ebit, ZSpec.latest. cbv zeta. by rewrite Hp. }
    intros ebit [Hebit_num Hebit_spec].
    (* Market Value of Equity *)
    eapply hoare_bind with
      (P := λ mv, is_num mv ∧ V.payload mv = ZSpec.market_value info_).
    { apply hoare_if; intros Hp.
      - hoare_lift_as mv Hmul. apply arith_payload in Hmul as [Hnum Hpay].
        eapply hoare_bind with (P := λ _, True); [ by hoare_auto z_note_side | intros _ _ ].
        apply hoare_ret. split; [ done | ].
        unfold ZSpec.market_value. cbv zeta. by rewrite Hp.
      - apply hoare_ret. split; [ by apply usable_is_num | ].
        unfold ZSpec.market_value. cbv zeta. by rewrite Hp. }
    intros market_value [Hmv_num Hmv_spec].
    (* Sales *)
    eapply hoare_bind with (P := λ _, True); [ by hoare_auto z_note_side | intros _ _ ].
    rewrite Hta. cbn [negb].
    (* the ratios *)
    hoare_lift_as A HA. apply div_payload in HA as [HA_num HA_spec].
    hoare_lift_as B HB. apply div_payload in HB as [HB_num HB_spec].
    hoare_lift_as C HC. apply div_payload in HC as [HC_num HC_spec].
    hoare_lift_as D HD.
    assert (is_num D ∧ V.payload D = ZSpec.X4 bs info_) as [HD_num HD_spec].
    { unfold ZSpec.X4, ZSpec.total_liabilities, ZSpec.latest.
      destruct (is_problematic (safe_get bs _ 0).1); cbn [negb] in HD.
      - by injection HD as <-.
      - apply div_payload in HD as [? ?]. by rewrite <- Hmv_spec. }
    hoare_lift_as E HE. apply div_payload in HE as [HE_num HE_spec].
    hoare_lift_as z Hz.
    destruct (z_score_evals A B C D E) as (z' & Hz' & Hz_num & Hz_spec); try done.
    rewrite Hz' in Hz. injection Hz as ->.
    apply hoare_return. intros n Hn ? [= <-]. split; [ done | ].
    exists company, bs, inc, info_. repeat split; try done.
    rewrite Hz_spec, HA_spec, HB_spec, HC_spec, HD_spec, HE_spec.
    rewrite Hwc_spec, Hre_spec, Hebit_spec, Hta_spec. reflexivity. }
  destruct (calculate_z_score yf_Ticker ticker) as [[[r p] s]|e]; [ | done ].
  destruct H as [-> | H]; [ by intros z | done ].
Qed.



(** ** [calculate_ohlson_score]: a missing previous year *)

(** A [try] whose body evaluates: the handler does not run. *)
Lemma hoare_try_ok {R A} (I : notes → Prop) (Qr : R → notes → Prop)
    (body : M R A) (handler : string → M R A) (a : A) (Q : A → Prop) :
  (∀ n, body n = (Normal a, n)) → Q a → hoare I Qr (try_except body handler) Q.
Proof. intros Hbody Ha n Hn. unfold try_except. by rewrite Hbody. Qed.

Lemma no_previous_year_note_problem (n : notes) (s : string) :
  no_previous_year_note n → no_previous_year_note (add_problem n s).
Proof. done. Qed.

Lemma no_previous_year_note_substituted (n : notes) (s : string) :
  s ≠ "Previous year's data not available" →
  no_previous_year_note n → no_previous_year_note (add_substituted n s).
Proof.
  unfold no_previous_year_note. simpl. intros Hs Hn.
  rewrite elem_of_app, list_elem_of_singleton. intros [?|?]; [ done | by apply Hs ].
Qed.

Ltac previous_year_side :=
  try (intros; first
         [ apply no_previous_year_note_problem; assumption
         | apply no_previous_year_note_substituted; [ discriminate | assumption ]
         | split; [ apply no_previous_year_note_problem; assumption | reflexivity ] ]).

(** With a usable net income of [x] for the latest period and none for
    the period before, the two terms that compare the years are computed
    against a previous income of 0, and the handler that would record the
    missing year does not run. *)
Lemma ohlson_ratios_missing_previous_year lib company inc (x : float) (key : string) :
  income_stmt company = Ok inc →
  first_qualifying inc ["Net Income"; "NetIncome"] 0 = Some (x, key) →
  first_qualifying inc ["Net Income"; "NetIncome"] 1 = None →
  hoare no_previous_year_note (λ r n, no_previous_year_note n ∧ r = (None, None))
    (ohlson_ratios lib company)
    (λ t, intwo t = VPy 0 ∧ chin t = VNp ((x - 0) / (abs x + abs 0))%float).
Proof.
  intros Hinc Hnow Hbefore.
  pose proof (first_qualifying_Some _ _ _ _ _ Hnow) as (_ & Husable & _).
  assert (safe_get inc ["Net Income"; "NetIncome"] 0 = (VNp x, Some key)) as Hget0.
  { by rewrite safe_get_first_qualifying, Hnow. }
  assert (safe_get inc ["Net Income"; "NetIncome"] 1 = sentinel) as Hget1.
  { by rewrite safe_get_first_qualifying, Hbefore. }
  unfold ohlson_ratios.
  hoare_lift_as bs Hbs. hoare_lift_as inc' Hinc'.
  assert (inc' = inc) as -> by congruence.
  hoare_lift_as info_ Hinfo. cbv zeta.
  rewrite Hget0, Hget1. cbn [fst sentinel]. rewrite Husable. cbn [negb].
  eapply hoare_bind with (P := λ _, True);
    [ by hoare_auto previous_year_side | intros total_assets _ ].
  do 6 hoare_step.
  eapply hoare_bind with (P := λ net_income, net_income = VNp x);
    [ by apply hoare_ret | intros ? -> ].
  hoare_step.
  eapply hoare_bind with
    (P := λ p, p = (VPy 0, VNp ((x - 0) / (abs x + abs 0))%float)).
  { eapply hoare_try_ok; [ | reflexivity ].
    intros n. unfold mbind, M_bind, lift, ret. cbn [V.lt V.payload mbind result_bind].
    destruct (x <? 0)%float; reflexivity. }
  intros ? ->. by apply hoare_ret.
Qed.

(** X9. A company with a usable net income for the latest period and none
    for the period before (a statement with a single period, or a missing
    or problematic cell): [calculate_ohlson_score] does not record
    "Previous year's data not available".  The lookup of the previous
    year yields the sentinel 0, so a score that is returned is the
    formula on the terms the calculator computed from the company's
    statements, and among those terms intwo is 0 and the change in income
    is taken against a previous income of 0:
    chin = (x - 0) / (|x| + |0|) for the net income x. *)
Theorem missing_previous_year_counts_as_zero (lib : numlib) (company : Company)
    (inc : DataFrame) (x : float) (key : string) :
  income_stmt company = Ok inc →
  first_qualifying inc ["Net Income"; "NetIncome"] 0 = Some (x, key) →
  first_qualifying inc ["Net Income"; "NetIncome"] 1 = None →
  match calculate_ohlson_score lib company with
  | Ok (r, _, s) =>
      ("Previous year's data not available" ∉ s)
      ∧ ∀ o_score, r.1 = Some o_score →
          ∃ t n, ohlson_ratios lib company no_notes = (Normal t, n)
                 ∧ intwo t = VPy 0
                 ∧ chin t = VNp ((x - 0) / (abs x + abs 0))%float
                 ∧ V.payload o_score = OhlsonSpec.O_score_of t
  | Raise _ => False
  end.
Proof.
  intros Hinc Hnow Hbefore.
  pose proof (ohlson_ratios_missing_previous_year lib company inc x key Hinc Hnow Hbefore
                no_notes) as Hprev.
  pose proof (ohlson_ratios_numeric lib company no_notes I) as Hnum.
  unfold calculate_ohlson_score, run, try_except, mbind at 1, M_bind.
  destruct (ohlson_ratios lib company no_notes) as [[t|r|e] n] eqn:Hratios.
  - destruct Hprev as (Hn & Hintwo & Hchin); [ by intros ?%elem_of_nil | ].
    destruct Hnum as (_ & Hnum & _).
    destruct (ohlson_score_spec lib t n Hnum) as (o & Ho & ->).
    destruct (math_exp lib _) as [e|msg]; [ | by split ].
    destruct (1 + e =? 0)%float; [ by split | ].
    split; [ done | ]. intros ? [= <-]. by exists t, n.
  - destruct Hprev as [Hn ->]; [ by intros ?%elem_of_nil | ]. by split.
  - split; [ | done ]. apply Hprev. by intros ?%elem_of_nil.
Qed.

Lemma missing_previous_year_counts_as_zero_witness :
  match calculate_ohlson_score reflib FirstYear.company with
  | Ok (r, _, s) =>
      ("Previous year's data not available" ∉ s)
      ∧ ∀ o_score, r.1 = Some o_score →
          ∃ t n, ohlson_ratios reflib FirstYear.company no_notes = (Normal t, n)
                 ∧ intwo t = VPy 0
                 ∧ chin t = VNp ((3e8 - 0) / (abs 3e8 + abs 0))%float
                 ∧ V.payload o_score = OhlsonSpec.O_score_of t
  | Raise _ => False
  end.
Proof.
  apply (missing_previous_year_counts_as_zero reflib FirstYear.company
           FirstYear.income_statement 3e8%float "Net Income");
    vm_compute; reflexivity.
Defined.

(** ** [safe_get]: candidate lists chain *)

Lemma find_app_first {A} (f : A → bool) (l1 l2 : list A) :
  List.find f (l1 ++ l2) =
  match List.find f l1 with Some x => Some x | None => List.find f l2 end.
Proof. induction l1 as [|a l1 IH]; simpl; [ done | by destruct (f a) ]. Qed.

(** X10. Looking a value up under the candidates [keys1 ++ keys2] is
    looking it up under [keys1] and, only when that yields a problematic
    value (the sentinel), under [keys2]: the two-stage lookups of the
    calculators and a single lookup with the longer list agree, value and
    name. *)
Theorem safe_get_chains (df : DataFrame) (keys1 keys2 : list string) (index : nat) :
  safe_get df (keys1 ++ keys2) index =
  if is_problematic (safe_get df keys1 index).1 then safe_get df keys2 index
  else safe_get df keys1 index.
Proof.
  rewrite !safe_get_first_qualifying. unfold first_qualifying. rewrite find_app_first.
  destruct (List.find (qualifies df index) keys1) as [key|] eqn:Hfind;
    cbn [mbind option_bind]; [ | done ].
  apply find_some in Hfind as [_ Hq]. unfold qualifies in Hq.
  destruct (cell df key index) as [x|]; [ | done ]. cbn [mbind option_bind fst].
  apply negb_true_iff in Hq. by rewrite Hq.
Qed.

(** ** The search box *)

Section SearchProperties.
Context {char : Type} `{EqDecision char}.
Variable is_space : char → bool.
Variables space hyphen : char.

Local Abbreviation separator := (Search.separator space hyphen).
Local Abbreviation no_space := (Forall (λ c, is_space c = false)).

Lemma split_first_cons (sep : list char) (c : char) (s : list char) :
  Search.split_first sep (c :: s) =
  if bool_decide (sep `prefix_of` c :: s) then [] else c :: Search.split_first sep s.
Proof. done. Qed.

Lemma split_first_symbol (symbol rest : list char) :
  is_space space = true → no_space symbol →
  Search.split_first separator (symbol ++ separator ++ rest) = symbol.
Proof.
  intros Hspace. induction 1 as [|c symbol Hc Hsymbol IH].
  - change ([] ++ separator ++ rest) with (space :: hyphen :: space :: rest).
    rewrite split_first_cons, bool_decide_eq_true_2; [ done | ]. by exists rest.
  - change ((c :: symbol) ++ separator ++ rest) with (c :: (symbol ++ separator ++ rest)).
    rewrite split_first_cons, bool_decide_eq_false_2; [ by rewrite IH | ].
    intros [rest' Hprefix]. injection Hprefix as -> _. congruence.
Qed.

Lemma lstrip_no_space (s : list char) : no_space s → Search.lstrip is_space s = s.
Proof. destruct 1 as [|c s Hc _]; simpl; [ done | by rewrite Hc ]. Qed.

Lemma strip_no_space (s : list char) : no_space s → Search.strip is_space s = s.
Proof.
  intros Hs. unfold Search.strip, Search.rstrip. rewrite (lstrip_no_space s Hs).
  rewrite lstrip_no_space; [ apply reverse_involutive | ].
  by apply Forall_reverse.
Qed.

(** X11. After a click on a suggestion whose symbol holds no white space,
    the analysis gets that symbol, whether the selection is still in the
    session or the text input has dropped it and the ticker is parsed
    back out of the text "SYMBOL - name" that the click put in the box;
    hyphens in the symbol and a further " - " in the company name do not
    matter. *)
Theorem clicked_suggestion_is_analysed (s : Search.suggestion (char := char)) :
  is_space space = true →
  no_space (Search.symbol s) →
  let st := Search.handle_suggestion_click space hyphen s in
  Search.ticker_to_analyze is_space space hyphen st (Search.search_query st)
  = Some (Search.symbol s)
  ∧ Search.ticker_to_analyze is_space space hyphen (Search.on_change st)
      (Search.search_query st)
    = Some (Search.symbol s).
Proof.
  intros Hspace Hsymbol st. split; [ done | ].
  unfold Search.ticker_to_analyze. cbn [Search.on_change Search.selected_company].
  cbn [st Search.handle_suggestion_click Search.search_query].
  rewrite split_first_symbol by done. rewrite strip_no_space by done.
  by destruct (Search.symbol s).
Qed.
End SearchProperties.

Lemma clicked_suggestion_is_analysed_witness :
  Search.ticker_to_analyze Search.ascii_is_space Search.ascii_space Search.ascii_hyphen
    (Search.on_change (Search.handle_suggestion_click Search.ascii_space Search.ascii_hyphen Search.berkshire))
    (String.list_ascii_of_string "BRK-B - Berkshire Hathaway - Class B")
  = Some (String.list_ascii_of_string "BRK-B").
Proof.
  assert (Forall (λ c, Search.ascii_is_space c = false) (Search.symbol Search.berkshire))
    as Hsymbol.
  { by repeat constructor. }
  exact (proj2 (clicked_suggestion_is_analysed Search.ascii_is_space Search.ascii_space Search.ascii_hyphen
                  Search.berkshire eq_refl Hsymbol)).
Defined.

(** ** The risk panels *)

(** The order of binary64 numbers is transitive. *)
Ltac compare_cases :=
  repeat match goal with
         | H : context [(?a ?= ?b)%Z] |- _ =>
             destruct (Z.compare_spec a b); try subst; try discriminate H
         | H : context [Pos.compare_cont Eq ?a ?b] |- _ =>
             change (Pos.compare_cont Eq a b) with (Pos.compare a b) in H
         | H : context [(?a ?= ?b)%positive] |- _ =>
             destruct (Pos.compare_spec a b); try subst; try discriminate H
         | |- context [(?a ?= ?b)%Z] =>
             destruct (Z.compare_spec a b); try subst; try lia
         | |- context [Pos.compare_cont Eq ?a ?b] =>
             change (Pos.compare_cont Eq a b) with (Pos.compare a b)
         | |- context [(?a ?= ?b)%positive] =>
             destruct (Pos.compare_spec a b); try subst; try lia
         end.

Lemma SFleb_ltb_trans a b c : SFleb a b = true → SFltb b c = true → SFltb a c = true.
Proof.
  unfold SFleb, SFltb.
  destruct a as [[]|[]| |[] ma ea], b as [[]|[]| |[] mb eb], c as [[]|[]| |[] mc ec];
    cbn [SFcompare CompOpp]; try discriminate; try reflexivity;
    intros H1 H2; compare_cases; simpl in *; try discriminate; try reflexivity; try lia.
Qed.

Lemma SFltb_leb_trans a b c : SFltb a b = true → SFleb b c = true → SFltb a c = true.
Proof.
  unfold SFleb, SFltb.
  destruct a as [[]|[]| |[] ma ea], b as [[]|[]| |[] mb eb], c as [[]|[]| |[] mc ec];
    cbn [SFcompare CompOpp]; try discriminate; try reflexivity;
    intros H1 H2; compare_cases; simpl in *; try discriminate; try reflexivity; try lia.
Qed.

Lemma below_is_downward_closed (x y c : float) :
  (x <=? y)%float = true → (y <? c)%float = true → (x <? c)%float = true.
Proof. rewrite leb_spec, !ltb_spec. apply SFleb_ltb_trans. Qed.

Lemma above_is_upward_closed (x y c : float) :
  (x <=? y)%float = true → (c <? x)%float = true → (c <? y)%float = true.
Proof. rewrite leb_spec, !ltb_spec. intros H1 H2. by eapply SFltb_leb_trans. Qed.

(** X12. The risk panels are monotone.  For two numbers x <= y: as a
    Merton probability, y is never coloured less alarming than x; as an
    Ohlson default probability, y is never given a less alarming status
    than x; and as a Z-Score, y is never given a more alarming one. *)
Theorem risk_class_is_monotone (x y : float) :
  (x <=? y)%float = true →
  Display.severity (Display.get_merton_color x)
  ≤ Display.severity (Display.get_merton_color y)
  ∧ Display.severity (Display.color_of (Display.get_status_and_color None (Some x)))
    ≤ Display.severity (Display.color_of (Display.get_status_and_color None (Some y)))
  ∧ Display.severity (Display.color_of (Display.get_status_and_color (Some y) None))
    ≤ Display.severity (Display.color_of (Display.get_status_and_color (Some x) None)).
Proof.
  intros Hxy. unfold Display.get_merton_color, Display.get_status_and_color.
  split; [ | split ].
  - destruct (y <? 0.05)%float eqn:Hy1.
    { rewrite (below_is_downward_closed x y _ Hxy Hy1). vm_compute; lia. }
    destruct (y <? 0.15)%float eqn:Hy2.
    { rewrite (below_is_downward_closed x y _ Hxy Hy2). destruct (x <? 0.05)%float; vm_compute; lia. }
    destruct (x <? 0.05)%float; [ | destruct (x <? 0.15)%float ]; vm_compute; lia.
  - destruct (y <? 0.3)%float eqn:Hy1.
    { rewrite (below_is_downward_closed x y _ Hxy Hy1). vm_compute; lia. }
    destruct (y <? 0.7)%float eqn:Hy2.
    { rewrite (below_is_downward_closed x y _ Hxy Hy2). destruct (x <? 0.3)%float; vm_compute; lia. }
    destruct (x <? 0.3)%float; [ | destruct (x <? 0.7)%float ]; vm_compute; lia.
  - destruct (2.99 <? x)%float eqn:Hx1.
    { rewrite (above_is_upward_closed x y _ Hxy Hx1). vm_compute; lia. }
    destruct (1.81 <? x)%float eqn:Hx2.
    { rewrite (above_is_upward_closed x y _ Hxy Hx2). destruct (2.99 <? y)%float; vm_compute; lia. }
    destruct (2.99 <? y)%float; [ | destruct (1.81 <? y)%float ]; vm_compute; lia.
Qed.

Lemma risk_class_is_monotone_witness :
  Display.severity (Display.get_merton_color 0.04)
  ≤ Display.severity (Display.get_merton_color 0.2)
  ∧ Display.severity (Display.color_of (Display.get_status_and_color None (Some 0.04%float)))
    ≤ Display.severity (Display.color_of (Display.get_status_and_color None (Some 0.2%float)))
  ∧ Display.severity (Display.color_of (Display.get_status_and_color (Some 0.2%float) None))
    ≤ Display.severity (Display.color_of (Display.get_status_and_color (Some 0.04%float) None)).
Proof. exact (risk_class_is_monotone 0.04 0.2 eq_refl). Defined.

Lemma isnan_SF (x : float) : F.isnan x = true → Prim2SF x = S754_nan.
Proof.
  unfold F.isnan, is_nan. rewrite FloatAxioms.eqb_spec. unfold SFeqb.
  destruct (Prim2SF x) as [[]|[]| |[] m e]; cbn [SFcompare]; try done;
    rewrite Z.compare_refl; change (Pos.compare_cont Eq m m) with (Pos.compare m m);
    by rewrite Pos.compare_refl.
Qed.

Lemma nan_compares_false (x c : float) :
  F.isnan x = true → (x <? c)%float = false ∧ (c <? x)%float = false.
Proof.
  intros Hnan%isnan_SF. rewrite !ltb_spec, Hnan. unfold SFltb.
  split; [ done | ]. by destruct (Prim2SF c).
Qed.

(** X13. A score that is NaN is not singled out: every comparison with
    it is false, so each classification falls through to its last
    branch.  [get_merton_color] returns the red of high risk,
    [get_status_and_color] returns "High Risk" for a NaN default
    probability and "Distress Zone" for a NaN Z-Score. *)
Theorem nan_is_shown_as_worst_class (x : float) :
  F.isnan x = true →
  Display.get_merton_color x = Display.red
  ∧ Display.status_of (Display.get_status_and_color None (Some x)) = "High Risk"
  ∧ Display.status_of (Display.get_status_and_color (Some x) None) = "Distress Zone".
Proof.
  intros Hnan. unfold Display.get_merton_color, Display.get_status_and_color.
  rewrite !(proj1 (nan_compares_false x _ Hnan)), !(proj2 (nan_compares_false x _ Hnan)).
  done.
Qed.

Lemma nan_is_shown_as_worst_class_witness :
  Display.get_merton_color nan = Display.red
  ∧ Display.status_of (Display.get_status_and_color None (Some nan)) = "High Risk"
  ∧ Display.status_of (Display.get_status_and_color (Some nan) None) = "Distress Zone".
Proof. exact (nan_is_shown_as_worst_class nan eq_refl). Defined.

(** ** [calculate_merton_default]: the notes tell the truth *)

Section MertonNotesProperties.
Variable company : Company.

Local Abbreviation truthful_so_far := (MertonNotes.truthful_so_far company).
Local Abbreviation truthful := (MertonNotes.truthful company).

Lemma truthful_so_far_problem (n : notes) (s : string) :
  truthful_so_far n → truthful_so_far (add_problem n s).
Proof. done. Qed.

Lemma in_substituted (n : notes) (s note : string) :
  note ∈ substituted_values (add_substituted n s) ↔ note ∈ substituted_values n ∨ note = s.
Proof. simpl. by rewrite elem_of_app, list_elem_of_singleton. Qed.

Lemma truthful_so_far_substituted (n : notes) (s : string) :
  s ≠ MertonNotes.six_months → s ≠ MertonNotes.three_months →
  s ≠ MertonNotes.capped → s ≠ MertonNotes.floored →
  truthful_so_far n → truthful_so_far (add_substituted n s).
Proof.
  intros H6 H3 Hc Hf (I6 & I3 & Ic & If). unfold MertonNotes.truthful_so_far.
  rewrite !in_substituted. repeat split.
  - intros [?|?]; [ by apply I6 | by destruct H6 ].
  - intros [?|?]; [ by apply I3 | by destruct H3 ].
  - intros [?|?]; [ by apply Ic | by destruct Hc ].
  - intros [?|?]; [ by apply If | by destruct Hf ].
Qed.

Lemma truthful_so_far_6mo (n : notes) :
  MertonNotes.window_6mo company →
  truthful_so_far n → truthful_so_far (add_substituted n MertonNotes.six_months).
Proof.
  intros Hw (I6 & I3 & Ic & If). unfold MertonNotes.truthful_so_far.
  rewrite !in_substituted. repeat split.
  - done.
  - intros [?|?]; [ by apply I3 | done ].
  - intros [?|?]; [ by apply Ic | done ].
  - intros [?|?]; [ by apply If | done ].
Qed.

Lemma truthful_so_far_3mo (n : notes) :
  MertonNotes.window_3mo company →
  truthful_so_far n → truthful_so_far (add_substituted n MertonNotes.three_months).
Proof.
  intros Hw (I6 & I3 & Ic & If). unfold MertonNotes.truthful_so_far.
  rewrite !in_substituted. repeat split.
  - intros [?|?]; [ by apply I6 | done ].
  - done.
  - intros [?|?]; [ by apply Ic | done ].
  - intros [?|?]; [ by apply If | done ].
Qed.

Lemma truthful_unclamped (r : merton_result) (n : notes) :
  truthful_so_far n → truthful r n.
Proof. intros (I6 & I3 & Ic & If). by repeat split. Qed.

Ltac notes_side :=
  try (intros; first
         [ apply truthful_unclamped, truthful_so_far_problem; assumption
         | apply truthful_so_far_problem; assumption
         | apply truthful_so_far_substituted; [ discriminate .. | assumption ] ]).

Lemma fetch_stock_data_truthful :
  hoare truthful_so_far truthful (fetch_stock_data company) (λ _, True).
Proof.
  unfold fetch_stock_data. apply hoare_try; [ | intros e; by hoare_auto notes_side ].
  hoare_lift_as y1 H1. apply hoare_if; intros L1; [ | by apply hoare_ret ].
  apply bool_decide_eq_true in L1.
  hoare_lift_as m6 H6. apply hoare_if; intros L6.
  - apply bool_decide_eq_true in L6.
    hoare_lift_as m3 H3. apply hoare_if; intros L3; [ by hoare_auto notes_side | ].
    apply bool_decide_eq_false in L3.
    hoare_step; [ | by apply hoare_ret ].
    apply hoare_substituted; [ | done ]. intros n Hn. apply truthful_so_far_3mo; [ | done ].
    exists y1, m6, m3. repeat split; try done. lia.
  - apply bool_decide_eq_false in L6.
    hoare_step; [ | by apply hoare_ret ].
    apply hoare_substituted; [ | done ]. intros n Hn. apply truthful_so_far_6mo; [ | done ].
    exists y1, m6. repeat split; try done. lia.
Qed.

Lemma merton_solve_truthful lib (E F sigma_E : float) (Q : merton_result → Prop) :
  hoare truthful_so_far truthful (merton_solve lib E F sigma_E) Q.
Proof.
  intros n (I6 & I3 & Ic & If).
  destruct (merton_solve_spec lib E F sigma_E n) as (V_A & sigma_A & c & _ & Hsolve).
  cbv zeta in Hsolve. rewrite Hsolve. clear Hsolve.
  set (p := norm_cdf lib _). unfold MertonSpec.clamp, solver_notes, MertonNotes.truthful.
  set (n1 := if c then n
             else add_substituted n "Using last iteration values (no convergence)").
  assert (truthful_so_far n1) as (J6 & J3 & Jc & Jf).
  { destruct c; [ done | ]. by apply truthful_so_far_substituted. }
  clearbody n1. cbn [fst].
  destruct (0.99 <? p)%float; [ | destruct (p <? 0.01)%float ];
    rewrite ?in_substituted; repeat split; try done; try (intros [?|?]; [ first [ by auto | by destruct Jc | by destruct Jf ] | done ]).
Qed.

(** X14. The notes that [calculate_merton_default] returns are true of
    what it did.  "Using 6-month price history for volatility" is among
    them only if the one-year history had fewer than 30 rows and the
    six-month one at least 30; "Using 3-month price history for
    volatility" only if the one-year and six-month histories were both
    too short and the three-month one was not; "Capped probability at
    99%" only together with the probability 0.99, and "Floored
    probability at 1%" only together with 0.01. *)
Theorem merton_notes_are_truthful (lib : numlib) :
  match calculate_merton_default lib company with
  | Ok (r, _, s) =>
      (MertonNotes.six_months ∈ s → MertonNotes.window_6mo company)
      ∧ (MertonNotes.three_months ∈ s → MertonNotes.window_3mo company)
      ∧ (MertonNotes.capped ∈ s → r.1 = Some 0.99%float)
      ∧ (MertonNotes.floored ∈ s → r.1 = Some 0.01%float)
  | Raise _ => False
  end.
Proof.
  unfold calculate_merton_default.
  apply (run_try truthful_so_far truthful).
  - eapply hoare_bind; [ apply fetch_stock_data_truthful | intros stock_data _ ].
    eapply hoare_bind with (P := λ _, True);
      [ unfold equity_volatility; by hoare_auto notes_side | intros equity_vol _ ].
    do 3 (eapply hoare_bind with (P := λ _, True); [ by hoare_auto notes_side | intros ? _ ]).
    eapply hoare_bind with (P := λ _, True);
      [ unfold resolve_market_cap; by hoare_auto notes_side | intros market_cap _ ].
    eapply hoare_bind with (P := λ _, True);
      [ unfold resolve_total_liabilities; by hoare_auto notes_side
      | intros total_liabilities _ ].
    apply merton_solve_truthful.
  - by repeat split; intros ?%elem_of_nil.
  - intros n e Hn. by apply truthful_unclamped, truthful_so_far_problem.
Qed.
End MertonNotesProperties.
